(** * shout-sh: admission control, font cache, render entry point and
      the streaming handler, embedded from the Go sources.

    Layout
    - [Int64]   : Go's [int64] as [Z] with two's-complement wrap-around.
    - [Types]   : [types/types.go] -- [RenderOptions], [ConnectionManager].
    - [Race]    : interleavings of [TryAcquire] bodies on one shared manager.
    - [Render]  : [render/fonts.go] and [render/figlet.go].
    - [Handlers]: [partyHandler] and [streamAnimated] (design document).
    - [FontList], [Text], [Colors], [Limiter], [Middleware], [ConfigPkg]:
      [ListFonts], the string helpers, the colour function, the rate
      limiter and the middleware of the design document, and
      [config/config.go]'s validation.
    - [Observe] : what the properties measure (bytes, lines, frames). *)

From Stdlib Require Import ZArith Lia List Bool Ascii String.
From stdpp Require Import base strings gmap list sorting.

(** ** 64-bit signed integers *)

Module Int64.
Local Open Scope Z_scope.

Definition min_int64 : Z := - 2 ^ 63.
Definition max_int64 : Z := 2 ^ 63 - 1.

(** The value an [int64] register holds after an exact result [x]. *)
Definition wrap (x : Z) : Z := (x + 2 ^ 63) mod 2 ^ 64 - 2 ^ 63.

Definition in_range (x : Z) : Prop := min_int64 <= x <= max_int64.
End Int64.

(** ** types/types.go *)

Module Types.
Local Open Scope Z_scope.

Record RenderOptions := {
  Font : string;
  Color : string;
  MaxWidth : Z;
  Timeout : Z;
  Speed : Z;
  Align : string;
  Border : string
}.

Record ConnectionManager := {
  activeStreams : Z;
  maxStreams : Z
}.

Definition NewConnectionManager (maxStreams : Z) : ConnectionManager :=
  {| activeStreams := 0; maxStreams := maxStreams |}.

(** [atomic.LoadInt64(&cm.activeStreams)] *)
Definition atomic_LoadInt64 (cm : ConnectionManager) : Z := activeStreams cm.

(** [atomic.AddInt64(&cm.activeStreams, delta)]: the new state and the
    new value, which wraps like every Go integer addition. *)
Definition atomic_AddInt64 (cm : ConnectionManager) (delta : Z)
  : ConnectionManager * Z :=
  let v := Int64.wrap (activeStreams cm + delta) in
  ({| activeStreams := v; maxStreams := maxStreams cm |}, v).

Definition TryAcquire (cm : ConnectionManager) : bool * ConnectionManager :=
  let current := atomic_LoadInt64 cm in
  if current >=? maxStreams cm then (false, cm)
  else (true, fst (atomic_AddInt64 cm 1)).

Definition Release (cm : ConnectionManager) : ConnectionManager :=
  fst (atomic_AddInt64 cm (-1)).

Definition GetActiveCount (cm : ConnectionManager) : Z := atomic_LoadInt64 cm.

(** Both fields are [int64] in the source. *)
Definition well_typed (cm : ConnectionManager) : Prop :=
  Int64.in_range (activeStreams cm) /\ Int64.in_range (maxStreams cm).

(** *** Sequential call sequences *)

Inductive call := CallTryAcquire | CallRelease.

(** What a test harness sees of one call: the manager afterwards and,
    for [TryAcquire], the returned flag. *)
Definition perform (cm : ConnectionManager) (c : call)
  : ConnectionManager * option bool :=
  match c with
  | CallTryAcquire => let '(ok, cm') := TryAcquire cm in (cm', Some ok)
  | CallRelease => (Release cm, None)
  end.

Fixpoint perform_all (cm : ConnectionManager) (cs : list call)
  : ConnectionManager * list (option bool) :=
  match cs with
  | [] => (cm, [])
  | c :: cs' =>
      let '(cm1, r) := perform cm c in
      let '(cm2, rs) := perform_all cm1 cs' in
      (cm2, r :: rs)
  end.

(** Tallies kept by an observer who only counts calls and return values:
    successful acquires and releases. *)
Record tally := { acquired : Z; released : Z }.

Definition tally0 : tally := {| acquired := 0; released := 0 |}.

Definition count_call (t : tally) (r : option bool) : tally :=
  match r with
  | Some true => {| acquired := acquired t + 1; released := released t |}
  | Some false => t
  | None => {| acquired := acquired t; released := released t + 1 |}
  end.

Definition tally_of (rs : list (option bool)) : tally :=
  fold_left count_call rs tally0.

(** Every release is matched to an earlier successful acquire: when a
    release is observed, fewer releases than successful acquires have
    been seen before it. *)
Fixpoint matched_from (t : tally) (rs : list (option bool)) : bool :=
  match rs with
  | [] => true
  | r :: rs' =>
      match r with
      | None => (released t <? acquired t) && matched_from (count_call t r) rs'
      | Some _ => matched_from (count_call t r) rs'
      end
  end.

Definition matched (rs : list (option bool)) : bool := matched_from tally0 rs.
(** What holds between a manager of capacity [m] and the observer's
    tally at a quiescent point. *)
Definition balanced (m : Z) (cm : ConnectionManager) (t : tally) : Prop :=
  maxStreams cm = m
  /\ 0 <= activeStreams cm <= m
  /\ activeStreams cm = acquired t - released t.
End Types.

(** ** Concurrent [TryAcquire] calls

    [sync/atomic] operations are sequentially consistent, so an execution
    of several goroutines inside [TryAcquire] is an interleaving of their
    atomic steps.  The body has two of them: the load, and (after a
    goroutine-local comparison) the add. *)

Module Race.
Import Types.
Local Open Scope Z_scope.

(** Where a goroutine stands inside [TryAcquire]. *)
Inductive pc :=
| Entry                     (* before [atomic.LoadInt64] *)
| Loaded (current : Z)      (* [current] read, comparison pending *)
| Returned (ok : bool).     (* the call has returned [ok] *)

Record config := {
  shared : ConnectionManager;
  goroutines : list pc
}.

(** One atomic step of a goroutine on the shared manager. *)
Definition step_pc (cm : ConnectionManager) (p : pc) : ConnectionManager * pc :=
  match p with
  | Entry => (cm, Loaded (atomic_LoadInt64 cm))
  | Loaded current =>
      if current >=? maxStreams cm then (cm, Returned false)
      else (fst (atomic_AddInt64 cm 1), Returned true)
  | Returned ok => (cm, Returned ok)
  end.

(** The scheduler picks goroutine [i]; an index out of range is a no-op. *)
Definition step (c : config) (i : nat) : config :=
  match goroutines c !! i with
  | Some p =>
      let '(cm', p') := step_pc (shared c) p in
      {| shared := cm'; goroutines := <[i := p']> (goroutines c) |}
  | None => c
  end.

Definition run (c : config) (schedule : list nat) : config :=
  fold_left step schedule c.

(** [n] goroutines about to call [TryAcquire] on a fresh manager. *)
Definition start (maxStreams : Z) (n : nat) : config :=
  {| shared := NewConnectionManager maxStreams; goroutines := replicate n Entry |}.

Definition got_slot (p : pc) : bool :=
  match p with Returned true => true | _ => false end.

(** How many of the calls have returned [true]. *)
Definition admitted (c : config) : nat :=
  length (List.filter got_slot (goroutines c)).
(** The number of goroutines holding a slot, as an integer. *)
Definition slots (gs : list pc) : Z := Z.of_nat (length (List.filter got_slot gs)).

(** What every interleaving from [start m n] keeps. *)
Definition counted (m : Z) (n : nat) (c : config) : Prop :=
  maxStreams (shared c) = m
  /\ length (goroutines c) = n
  /\ activeStreams (shared c) = slots (goroutines c).
(** The schedule in which the goroutines of [order] run one after the
    other, each taking both its steps before the next starts. *)
Fixpoint one_at_a_time (order : list nat) : list nat :=
  match order with
  | [] => []
  | i :: rest => i :: i :: one_at_a_time rest
  end.
End Race.

(** ** render/fonts.go and render/figlet.go *)

Module Render.
Import Types.

Record Font := { Name : string; fontPath : string }.

(** [map[string]*Font]; the mutex only serialises access. *)
Record FontCache := { fonts : gmap string Font }.

Definition NewFontCache : FontCache := {| fonts := ∅ |}.

(** [config.FontConfig] *)
Record FontConfig := {
  Default : string;
  Path : string;
  Allowed : list string
}.

Inductive error :=
| ErrFontFileDoesNotExist (path : string)   (* "font file does not exist: %s" *)
| ErrCannotAccessFontFile                   (* "cannot access font file: %w" *)
| ErrFontPathIsDirectory (path : string)    (* "font path is a directory, not a file: %s" *)
| ErrCannotReadFontFile                     (* "cannot read font file: %w" *)
| ErrFailedToOpenFontFile                   (* "failed to open font file: %w" *)
| ErrFontCacheIsNil                         (* "font cache is nil" *)
| ErrNoFontsLoaded                          (* "no fonts loaded" *)
| ErrFailedToRenderText (cause : error).    (* "failed to render text: %w" *)

(** Result of [os.Stat]. *)
Inductive stat_result :=
| StatNotExist                (* [os.IsNotExist(err)] *)
| StatError                   (* any other error *)
| StatInfo (isDir : bool).

Inductive log_line :=
| LogWarning (fontName : string) (err : error)  (* "Warning: Could not load font %s: %v" *)
| LogLoaded (fontName : string)                 (* "Loaded font: %s" *)
| LogLoadedCount (loadedCount : Z).             (* "Loaded %d fonts successfully" *)

Definition DefaultFont : string := "standard".

Section FileSystem.
(** The operating system and the glyph library, as the package sees
    them. *)
Variable File : Type.
Variable os_Stat : string -> stat_result.
Variable os_Open : string -> option File.
Variable filepath_Join : string -> string -> string.
(** [figure.NewFigureWithFont(text, file, true).String()] *)
Variable figure_String : string -> File -> string.

Definition ValidateFont (path : string) : option error :=
  match os_Stat path with
  | StatNotExist => Some (ErrFontFileDoesNotExist path)
  | StatError => Some ErrCannotAccessFontFile
  | StatInfo true => Some (ErrFontPathIsDirectory path)
  | StatInfo false =>
      match os_Open path with
      | None => Some ErrCannotReadFontFile
      | Some _ => None
      end
  end.

(** The loop state of [LoadFonts]: the map, [loadedCount], the log. *)
Definition load_state : Type := gmap string Font * Z * list log_line.

Definition load_one (cfgPath : string) (st : load_state) (fontName : string)
  : load_state :=
  let '(m, loadedCount, lg) := st in
  let fontPath := filepath_Join cfgPath (fontName +:+ ".flf") in
  match ValidateFont fontPath with
  | Some err => (m, loadedCount, lg ++ [LogWarning fontName err])
  | None =>
      (<[fontName := {| Name := fontName; fontPath := fontPath |}]> m,
       (loadedCount + 1)%Z,
       lg ++ [LogLoaded fontName])
  end.

(** Returns the cache afterwards, the returned error and the lines
    logged. *)
Definition LoadFonts (fc : FontCache) (cfg : FontConfig)
  : FontCache * option error * list log_line :=
  let '(m, loadedCount, lg) :=
    fold_left (load_one (Path cfg)) (Allowed cfg) (fonts fc, 0%Z, []) in
  ({| fonts := m |}, None, lg ++ [LogLoadedCount loadedCount]).

(** The entry [LoadFonts] stores for [fontName], and whether the file
    behind it passes [ValidateFont]. *)
Definition font_entry (cfgPath fontName : string) : Font :=
  {| Name := fontName;
     fontPath := filepath_Join cfgPath (fontName +:+ ".flf") |}.

Definition validates (cfgPath fontName : string) : bool :=
  match ValidateFont (fontPath (font_entry cfgPath fontName)) with
  | None => true
  | Some _ => false
  end.

Definition GetFont (fc : FontCache) (name : string) : option Font * bool :=
  match fonts fc !! name with
  | Some font => (Some font, true)
  | None => (None, false)
  end.

(** [None] is the nil pointer. *)
Definition GetFontOrDefault (fc : FontCache) (name defaultName : string)
  : option Font :=
  match fonts fc !! name with
  | Some font => Some font
  | None =>
      match fonts fc !! defaultName with
      | Some font => Some font
      | None => None
      end
  end.

(** The method [Render] of [Font], on a non-nil receiver. *)
Definition Font_Render (f : Font) (text : string) : string * option error :=
  match os_Open (fontPath f) with
  | None => (""%string, Some ErrFailedToOpenFontFile)
  | Some file => (figure_String text file, None)
  end.

(** [cache = None] is a nil [*FontCache]. *)
Definition GenerateASCII (text : string) (opts : RenderOptions)
    (cache : option FontCache) : string * option error :=
  match cache with
  | None => (""%string, Some ErrFontCacheIsNil)
  | Some cache =>
      if decide (text = ""%string) then (""%string, None)
      else
        match GetFontOrDefault cache (Types.Font opts) DefaultFont with
        | None => (""%string, Some ErrNoFontsLoaded)
        | Some font =>
            match Font_Render font text with
            | (_, Some err) => (""%string, Some (ErrFailedToRenderText err))
            | (ascii, None) => (ascii, None)
            end
        end
  end.
End FileSystem.

(** *** A small font directory

    [fonts/standard.flf] and [fonts/doom.flf] are readable regular
    files; nothing else exists. *)

Definition demo_files : list string := ["fonts/standard.flf"; "fonts/doom.flf"]%string.

Definition demo_Stat (path : string) : stat_result :=
  if bool_decide (path ∈ demo_files) then StatInfo false else StatNotExist.

Definition demo_Open (path : string) : option string :=
  if bool_decide (path ∈ demo_files) then Some path else None.

(** [filepath.Join] on two clean, non-empty components. *)
Definition demo_Join (dir name : string) : string := dir +:+ "/" +:+ name.

(** Stands for the glyph library: the file's name, then the text. *)
Definition demo_figure (text : string) (file : string) : string :=
  file +:+ ":" +:+ text.

Definition demo_config : FontConfig :=
  {| Default := "standard"; Path := "fonts";
     Allowed := ["standard"; "doom"; "missing-file"]%string |}.

Definition demo_cache : FontCache :=
  fst (fst (LoadFonts string demo_Stat demo_Open demo_Join NewFontCache demo_config)).

Definition demo_opts (font : string) : RenderOptions :=
  {| Types.Font := font; Color := ""; MaxWidth := 0; Timeout := 0;
     Speed := 5; Align := "left"; Border := "" |}.

Definition with_font (opts : RenderOptions) (name : string) : RenderOptions :=
  {| Types.Font := name; Color := Color opts; MaxWidth := MaxWidth opts;
     Timeout := Timeout opts; Speed := Speed opts; Align := Align opts;
     Border := Border opts |}.
End Render.

(** ** The streaming handler (design document: party mode)

    [partyHandler] and [streamAnimated] run against process-wide state
    (the connection manager, the metrics) and the request context; the
    state is threaded explicitly.  The bytes of a frame are not modelled:
    a frame is identified by its index. *)

Module Handlers.
Import Types.
Local Open Scope Z_scope.

(** *** [time.Duration]: nanoseconds in an [int64] *)

Definition Millisecond : Z := 1000000.
Definition Second : Z := 1000 * Millisecond.
Definition Minute : Z := 60 * Second.

(** [int(d.Seconds())].  [Seconds] goes through [float64]; on a whole
    number of seconds the conversion is exact and this quotient is the
    value Go computes. *)
Definition Duration_Seconds_int (d : Z) : Z := Z.quot d Second.

(** *** Constants *)

Definition DefaultStreamTimeout : Z := 5 * Minute.
Definition MinSpeed : Z := 1.
Definition MaxSpeed : Z := 10.

Record ServerConfig := { MaxStreamDuration : Z }.

(** *** Process state *)

Record Metrics := {
  PartyRequests : Z;
  ActiveStreams : Z;
  RejectedStreams : Z;
  TotalErrors : Z
}.

(** The closure handed to [SetBodyStreamWriter], by what it captures. *)
Record StreamWriter := {
  sw_ascii : string;
  sw_opts : RenderOptions;
  sw_timeout : Z;
  sw_frameDelay : Z
}.

Inductive Body :=
| BodyEmpty
| BodyString (s : string)
| BodyStream (writer : StreamWriter).

(** [*fiber.Ctx], response side. *)
Record Ctx := {
  status : Z;
  headers : list (string * string);
  body : Body
}.

Definition fresh_ctx : Ctx := {| status := 200; headers := []; body := BodyEmpty |}.

(** [cm_calls] records every call made on [connManager], oldest first,
    as an observer sees it: [Some ok] for a [TryAcquire] that returned
    [ok], [None] for a [Release]. *)
Record World := {
  connManager : ConnectionManager;
  metrics : Metrics;
  cm_calls : list (option bool)
}.

(** How a Go function leaves: by [return] or by an unrecovered panic. *)
Inductive Outcome := Return | Panic.

Definition set_metrics (w : World) (m : Metrics) : World :=
  {| connManager := connManager w; metrics := m; cm_calls := cm_calls w |}.

Definition inc_PartyRequests (w : World) : World :=
  let m := metrics w in
  set_metrics w {| PartyRequests := Int64.wrap (PartyRequests m + 1);
                   ActiveStreams := ActiveStreams m;
                   RejectedStreams := RejectedStreams m;
                   TotalErrors := TotalErrors m |}.

Definition add_ActiveStreams (delta : Z) (w : World) : World :=
  let m := metrics w in
  set_metrics w {| PartyRequests := PartyRequests m;
                   ActiveStreams := Int64.wrap (ActiveStreams m + delta);
                   RejectedStreams := RejectedStreams m;
                   TotalErrors := TotalErrors m |}.

Definition inc_RejectedStreams (w : World) : World :=
  let m := metrics w in
  set_metrics w {| PartyRequests := PartyRequests m;
                   ActiveStreams := ActiveStreams m;
                   RejectedStreams := Int64.wrap (RejectedStreams m + 1);
                   TotalErrors := TotalErrors m |}.

Definition inc_TotalErrors (w : World) : World :=
  let m := metrics w in
  set_metrics w {| PartyRequests := PartyRequests m;
                   ActiveStreams := ActiveStreams m;
                   RejectedStreams := RejectedStreams m;
                   TotalErrors := Int64.wrap (TotalErrors m + 1) |}.

(** [connManager.TryAcquire()] *)
Definition connManager_TryAcquire (w : World) : bool * World :=
  let '(ok, cm) := TryAcquire (connManager w) in
  (ok, {| connManager := cm; metrics := metrics w;
          cm_calls := cm_calls w ++ [Some ok] |}).

(** [connManager.Release()] *)
Definition connManager_Release (w : World) : World :=
  {| connManager := Release (connManager w); metrics := metrics w;
     cm_calls := cm_calls w ++ [None] |}.

(** [defer f()] followed by the rest of the function: [f] runs when the
    rest leaves, by return or by panic. *)
Definition defer {A : Type} (f : World -> World)
    (rest : World -> World * A * Outcome) (w : World) : World * A * Outcome :=
  let '(w', a, out) := rest w in (f w', a, out).

(** [c.Status(code).SendString(s)] *)
Definition SendString (c : Ctx) (code : Z) (s : string) : Ctx :=
  {| status := code; headers := headers c; body := BodyString s |}.

Definition Set_header (c : Ctx) (k v : string) : Ctx :=
  {| status := status c; headers := headers c ++ [(k, v)]; body := body c |}.

Definition SetBodyStreamWriter (c : Ctx) (sw : StreamWriter) : Ctx :=
  {| status := status c; headers := headers c; body := BodyStream sw |}.

(** *** Helpers *)

Definition set_Timeout (opts : RenderOptions) (t : Z) : RenderOptions :=
  {| Font := Font opts; Color := Color opts; MaxWidth := MaxWidth opts;
     Timeout := t; Speed := Speed opts; Align := Align opts;
     Border := Border opts |}.

Definition calculateFrameDelay (speed : Z) : Z :=
  let speed := if speed <? MinSpeed then MinSpeed else speed in
  let speed := if speed >? MaxSpeed then MaxSpeed else speed in
  let delay := 220 - speed * 20 in
  Int64.wrap (delay * Millisecond).

Inductive option_error :=
| InvalidFont (font : string)        (* "invalid font: %s" *)
| SpeedOutOfRange                    (* "speed must be between 1 and %d" *)
| InvalidAlignment (align : string). (* "invalid alignment: %s" *)

Definition validFonts : list string :=
  ["doom"; "3d"; "big"; "bloody"; "standard"; "slant"; "small"; "shadow"]%string.

Definition validAligns : list string := ["left"; "center"; "right"]%string.

Definition validateOptions (opts : RenderOptions) : option option_error :=
  if negb (bool_decide (Font opts = ""%string))
     && negb (bool_decide (Font opts ∈ validFonts))
  then Some (InvalidFont (Font opts))
  else if (Speed opts <? 0) || (Speed opts >? MaxSpeed)
  then Some SpeedOutOfRange
  else if negb (bool_decide (Align opts = ""%string))
          && negb (bool_decide (Align opts ∈ validAligns))
  then Some (InvalidAlignment (Align opts))
  else None.

Definition error_message (e : option_error) : string :=
  match e with
  | InvalidFont font => "invalid font: " +:+ font
  | SpeedOutOfRange => "speed must be between 1 and 10"
  | InvalidAlignment align => "invalid alignment: " +:+ align
  end.

(** [strings.ReplaceAll(text, "+", " ")] *)
Fixpoint plus_to_space (s : string) : string :=
  match s with
  | EmptyString => EmptyString
  | String a s' =>
      String (if Ascii.eqb a "+"%char then " "%char else a) (plus_to_space s')
  end.

Definition keep_byte (a : Ascii.ascii) : bool :=
  let n := Z.of_nat (Ascii.nat_of_ascii a) in
  ((32 <=? n) && (n <=? 126)) || (n =? 10) || (n =? 9).

(** [strings.Map] with the printable-ASCII filter.  Every byte of a
    multi-byte or malformed sequence is at least 128 and decodes to a
    rune the filter removes, so the rune-wise filter is this byte-wise
    one. *)
Fixpoint keep_printable (s : string) : string :=
  match s with
  | EmptyString => EmptyString
  | String a s' =>
      if keep_byte a then String a (keep_printable s') else keep_printable s'
  end.

Definition cleanForFiglet (text : string) : string :=
  let text := keep_printable text in
  if (100 <? String.length text)%nat then String.substring 0 100 text else text.

(** *** Timeouts *)

(** [partyHandler], "Apply timeout limits". *)
Definition apply_timeout_limits (cfg : ServerConfig) (opts : RenderOptions)
  : RenderOptions :=
  if (Timeout opts =? 0)
     || (Timeout opts >? Duration_Seconds_int (MaxStreamDuration cfg))
  then set_Timeout opts (Duration_Seconds_int DefaultStreamTimeout)
  else opts.

(** [streamAnimated], "Setup timeout with maximum limit": the value given
    to [time.NewTimer]. *)
Definition timeoutDuration (cfg : ServerConfig) (opts : RenderOptions) : Z :=
  if Timeout opts >? 0 then
    let d := Int64.wrap (Timeout opts * Second) in
    if d >? MaxStreamDuration cfg then MaxStreamDuration cfg else d
  else DefaultStreamTimeout.

(** The deadline of the stream a request with options [opts] gets. *)
Definition effective_deadline (cfg : ServerConfig) (opts : RenderOptions) : Z :=
  timeoutDuration cfg (apply_timeout_limits cfg opts).

(** Follows the specification's words: the minimum of the requested
    timeout and the server maximum, the server default standing in for a
    request without timeout. *)
Definition spec_effective_deadline (cfg : ServerConfig) (opts : RenderOptions) : Z :=
  let requested :=
    if Timeout opts =? 0 then DefaultStreamTimeout else Timeout opts * Second in
  Z.min requested (MaxStreamDuration cfg).

(** *** The handler *)

(** What the handler reads from the request: [c.Params("*")] and the
    result of [parseOptions(c)]. *)
Record Request := {
  param_star : string;
  parsed : RenderOptions
}.

(** How the call [generateASCII(text, opts)] ends. *)
Inductive generated :=
| GenOk (ascii : string)
| GenErr
| GenPanic.

Section Server.
Variable config_Server : ServerConfig.
Variable generateASCII : string -> RenderOptions -> generated.

Definition streamAnimated (c : Ctx) (text : string) (opts : RenderOptions)
    (w : World) : World * Ctx * Outcome :=
  let w := add_ActiveStreams 1 w in
  defer (add_ActiveStreams (-1)) (fun w =>
    match generateASCII text opts with
    | GenPanic => (w, c, Panic)
    | GenErr =>
        (inc_TotalErrors w, SendString c 500 "Error generating ASCII art", Return)
    | GenOk ascii =>
        let c := Set_header c "Content-Type" "text/plain; charset=utf-8" in
        let c := Set_header c "Cache-Control" "no-cache" in
        let c := Set_header c "Transfer-Encoding" "chunked" in
        let c := Set_header c "X-Content-Type-Options" "nosniff" in
        let timeout := timeoutDuration config_Server opts in
        let frameDelay := calculateFrameDelay (Speed opts) in
        (w,
         SetBodyStreamWriter c
           {| sw_ascii := ascii; sw_opts := opts;
              sw_timeout := timeout; sw_frameDelay := frameDelay |},
         Return)
    end) w.

Definition partyHandler (c : Ctx) (req : Request) (w : World)
  : World * Ctx * Outcome :=
  let w := inc_PartyRequests w in
  let '(ok, w) := connManager_TryAcquire w in
  if negb ok then
    (inc_RejectedStreams w,
     SendString c 503 "Error: Too many active streams. Please try again later.",
     Return)
  else
    defer connManager_Release (fun w =>
      let text := param_star req in
      if decide (text = ""%string) then
        (w, SendString c 400 "Error: No text provided", Return)
      else
        let text := plus_to_space text in
        let text := cleanForFiglet text in
        if (String.length text =? 0)%nat then
          (w, SendString c 400 "Error: Text contains no valid characters", Return)
        else
          let opts := parsed req in
          match validateOptions opts with
          | Some err =>
              (w, SendString c 400 ("Error: " +:+ error_message err), Return)
          | None =>
              let opts := apply_timeout_limits config_Server opts in
              streamAnimated c text opts w
          end) w.

(** *** The animation loop

    The body stream writer runs on the connection once the handler
    has returned.  [ticks] is what happens at each firing of the
    ticker that wins the [select] before the timer does; when the list
    is used up the timer fires. *)

Inductive tick :=
| TickFlushed          (* frame written, [w.Flush()] succeeded *)
| TickFlushFailed      (* [w.Flush()] failed: client disconnected *)
| TickFault.           (* panic while rendering the frame *)

Inductive wire :=
| WClearScreen
| WCursorHome
| WFrame (frame : Z)
| WResetColors
| WFlush.

Fixpoint animation_loop (ticks : list tick) (frame : Z) : list wire * Outcome :=
  match ticks with
  | [] => ([WResetColors; WFlush], Return)
  | TickFault :: _ => ([WCursorHome], Panic)
  | TickFlushFailed :: _ => ([WCursorHome; WFrame frame; WFlush], Return)
  | TickFlushed :: rest =>
      let '(ws, out) := animation_loop rest (Int64.wrap (frame + 1)) in
      (WCursorHome :: WFrame frame :: WFlush :: ws, out)
  end.

Definition run_writer (sw : StreamWriter) (ticks : list tick)
  : list wire * Outcome :=
  let '(ws, out) := animation_loop ticks 0 in
  (WClearScreen :: WFlush :: ws, out).

(** One request from arrival to the end of its connection. *)
Definition serve (req : Request) (ticks : list tick) (w : World)
  : World * Ctx * list wire * Outcome :=
  let '(w', c, out) := partyHandler fresh_ctx req w in
  match out, body c with
  | Return, BodyStream sw =>
      let '(ws, out') := run_writer sw ticks in (w', c, ws, out')
  | _, _ => (w', c, [], out)
  end.
End Server.

Definition world_of (w : World * Ctx * list wire * Outcome) : World :=
  fst (fst (fst w)).

Definition ctx_of (w : World * Ctx * list wire * Outcome) : Ctx :=
  snd (fst (fst w)).

Definition is_release (r : option bool) : bool :=
  match r with None => true | Some _ => false end.

(** Number of [Release] calls among the recorded calls. *)
Definition release_calls (calls : list (option bool)) : nat :=
  length (List.filter is_release calls).

(** *** A small server *)

Definition demo_world (maxStreams : Z) : World :=
  {| connManager := NewConnectionManager maxStreams;
     metrics := {| PartyRequests := 0; ActiveStreams := 0;
                   RejectedStreams := 0; TotalErrors := 0 |};
     cm_calls := [] |}.

Definition demo_request (text : string) (timeout : Z) : Request :=
  {| param_star := text;
     parsed := {| Font := "doom"; Color := "rainbow"; MaxWidth := 0;
                  Timeout := timeout; Speed := 5; Align := "left";
                  Border := "" |} |}.

(** Renders every text but ["ERR"], which fails, and ["PANIC"], which
    panics. *)
Definition demo_generateASCII (text : string) (opts : RenderOptions) : generated :=
  if bool_decide (text = "ERR"%string) then GenErr
  else if bool_decide (text = "PANIC"%string) then GenPanic
  else GenOk text.

Definition server (maxSeconds : Z) : ServerConfig :=
  {| MaxStreamDuration := maxSeconds * Second |}.
End Handlers.

(** ** The font list ([ListFonts], render/fonts.go) *)

Module FontList.
Import Render.

(** [sort.Strings]: the ascending arrangement of the slice under the
    bytewise order of Go strings.  Equal strings are indistinguishable,
    so that arrangement is unique and any correct sort computes it. *)
Definition sort_Strings (names : list string) : list string :=
  merge_sort String.le names.

(** [ListFonts] for a given order of iteration over the map; Go leaves
    that order unspecified. *)
Definition ListFonts_ranging (iteration : list string) : list string :=
  sort_Strings iteration.

Definition ListFonts (fc : FontCache) : list string :=
  ListFonts_ranging (map fst (map_to_list (fonts fc))).
End FontList.

(** ** String helpers of the handlers (design document) *)

Module Text.
Import Types.
Local Open Scope Z_scope.

Definition newline : ascii := "010"%char.

(** [len(s)] *)
Definition len (s : string) : Z := Z.of_nat (String.length s).

(** [strings.Split(s, "\n")] *)
Fixpoint Split_newline (s : string) : list string :=
  match s with
  | EmptyString => [EmptyString]
  | String a s' =>
      if Ascii.eqb a newline then EmptyString :: Split_newline s'
      else
        match Split_newline s' with
        | l :: ls => String a l :: ls
        | [] => [String a EmptyString]
        end
  end.

(** [strings.Join(ls, "\n")] *)
Fixpoint Join_newline (ls : list string) : string :=
  match ls with
  | [] => EmptyString
  | l :: ls' =>
      match ls' with
      | [] => l
      | _ :: _ => l +:+ String newline (Join_newline ls')
      end
  end.

Fixpoint repeat_string (s : string) (n : nat) : string :=
  match n with
  | O => EmptyString
  | S n' => s +:+ repeat_string s n'
  end.

(** [strings.Repeat(s, count)]; [None] is the panic on a negative
    count. *)
Definition Repeat (s : string) (count : Z) : option string :=
  if count <? 0 then None else Some (repeat_string s (Z.to_nat count)).

(** [firstOf(values...)] *)
Fixpoint firstOf (values : list string) : string :=
  match values with
  | [] => EmptyString
  | v :: rest => if decide (v = EmptyString) then firstOf rest else v
  end.

(** One iteration of the loop of [alignText]. *)
Definition align_line (align : string) (width : Z) (line : string)
  : option string :=
  let lineLen := len line in
  if lineLen >=? width then Some line
  else if decide (align = "center"%string) then
    let padding := Z.quot (width - lineLen) 2 in
    pad ← Repeat " " padding; Some (pad +:+ line)
  else if decide (align = "right"%string) then
    let padding := width - lineLen in
    pad ← Repeat " " padding; Some (pad +:+ line)
  else Some line.

(** [alignText(text, align, width)]; [None] would be a panic. *)
Definition alignText (text align : string) (width : Z) : option string :=
  if width <=? 0 then Some text
  else
    aligned ← mapM (align_line align width) (Split_newline text);
    Some (Join_newline aligned).

(** The first loop of [addBorder]. *)
Definition max_len (lines : list string) : Z :=
  fold_left (fun maxLen line => if len line >? maxLen then len line else maxLen)
            lines 0.

Record border := {
  top : string;
  bottom : string;
  left : string;
  right : string
}.

(** The [switch] of [addBorder]: [Some None] is the [default] branch,
    which returns the text as it is. *)
Definition border_of (style : string) (maxLen : Z) : option (option border) :=
  if decide (style = "box"%string) then
    bar ← Repeat "-" (maxLen + 2);
    Some (Some {| top := "+" +:+ bar +:+ "+"; bottom := "+" +:+ bar +:+ "+";
                  left := "| "; right := " |" |})
  else if decide (style = "double"%string) then
    bar1 ← Repeat "═" (maxLen + 2);
    bar2 ← Repeat "═" (maxLen + 2);
    Some (Some {| top := "╔" +:+ bar1 +:+ "╗"; bottom := "╚" +:+ bar2 +:+ "╝";
                  left := "║ "; right := " ║" |})
  else Some None.

Definition border_line (b : border) (maxLen : Z) (line : string) : option string :=
  padding ← Repeat " " (maxLen - len line);
  Some (left b +:+ line +:+ padding +:+ right b).

(** The slice [bordered] before it is joined. *)
Definition bordered_lines (b : border) (maxLen : Z) (lines : list string)
  : option (list string) :=
  body ← mapM (border_line b maxLen) lines;
  Some ([top b] ++ body ++ [bottom b]).

(** [addBorder(text, style)]; [None] would be a panic. *)
Definition addBorder (text style : string) : option string :=
  let lines := Split_newline text in
  let maxLen := max_len lines in
  b ← border_of style maxLen;
  match b with
  | None => Some text
  | Some b =>
      bordered ← bordered_lines b maxLen lines;
      Some (Join_newline bordered)
  end.

(** [parseOptions(c)], over the two accessors of the request it uses:
    [c.Query(key)], empty when the parameter is absent, and
    [c.QueryInt(key, default)]. *)
Section Query.
Variable Query : string -> string.
Variable QueryInt : string -> Z -> Z.

Definition parseOptions : RenderOptions :=
  {| Font := firstOf [Query "f"; Query "font"; "doom"]%string;
     Color := firstOf [Query "c"; Query "color"; ""]%string;
     MaxWidth := QueryInt "mw" (QueryInt "maxwidth" 0);
     Timeout := QueryInt "t" (QueryInt "timeout" 0);
     Speed := QueryInt "s" (QueryInt "speed" 5);
     Align := firstOf [Query "a"; Query "align"; "left"]%string;
     Border := firstOf [Query "b"; Query "border"; ""]%string |}.
End Query.
End Text.

(** ** Animated colours (design document) *)

Module Colors.
Local Open Scope Z_scope.

Definition rainbow : list Z :=
  [196; 202; 208; 214; 220; 226; 190; 154; 118; 82; 46; 47; 48; 49; 50; 51].
Definition fire : list Z := [52; 88; 124; 160; 196; 202; 208; 214; 220; 226].
Definition ocean : list Z := [17; 18; 19; 20; 21; 25; 31; 37; 43; 49; 50; 51].

(** [colors[position]]; [None] is the index-out-of-range panic. *)
Definition at_index (colors : list Z) (position : Z) : option Z :=
  if position <? 0 then None else colors !! Z.to_nat position.

Definition add64 (a b : Z) : Z := Int64.wrap (a + b).
Definition mul64 (a b : Z) : Z := Int64.wrap (a * b).

(** [len(colors)] *)
Definition len (colors : list Z) : Z := Z.of_nat (length colors).

(** The ["rainbow"] case, which the [default] case calls again. *)
Definition rainbow_color (frame col : Z) : option Z :=
  at_index rainbow (Z.rem (add64 frame (mul64 col 2)) (len rainbow)).

(** [getAnimatedColor(scheme, frame, line, col)]; [%] is Go's truncated
    remainder. *)
Definition getAnimatedColor (scheme : string) (frame line col : Z) : option Z :=
  if decide (scheme = "rainbow"%string) then rainbow_color frame col
  else if decide (scheme = "fire"%string) then
    at_index fire (Z.rem (add64 (add64 frame (mul64 line 3)) col) (len fire))
  else if decide (scheme = "ocean"%string) then
    at_index ocean (Z.rem (add64 (add64 frame line) (mul64 col 2)) (len ocean))
  else if decide (scheme = "matrix"%string) then
    if Z.rem (add64 (add64 frame line) col) 17 =? 0 then Some 46 else Some 28
  else rainbow_color frame col.
(** Coordinates far from the ends of [int]: a frame counter, a line and
    a column of a rendered text. *)
Definition small (x : Z) : Prop := 0 <= x <= 2 ^ 60.
End Colors.

(** ** The hand-written rate limiter (design document) *)

Module Limiter.
Local Open Scope Z_scope.

Record visitor := { lastSeen : Z; count : Z }.

Record RateLimiter := { visitors : gmap string visitor }.

Definition empty_limiter : RateLimiter := {| visitors := ∅ |}.

Definition Minute : Z := 60 * 1000000000.

(** [Allow(ip)].  Times are nanoseconds on the process clock.  [now] is
    the first reading of the clock in the call; the branch that resets
    the window reads it a second time, [later], for the new stamp. *)
Definition Allow (rl : RateLimiter) (ip : string) (now later : Z)
  : bool * RateLimiter :=
  match visitors rl !! ip with
  | None =>
      (true, {| visitors := <[ip := {| lastSeen := now; count := 1 |}]> (visitors rl) |})
  | Some v =>
      if now - lastSeen v >? Minute then
        (true, {| visitors := <[ip := {| lastSeen := later; count := 1 |}]> (visitors rl) |})
      else if count v >=? 100 then (false, rl)
      else
        (true, {| visitors := <[ip := {| lastSeen := lastSeen v;
                                         count := Int64.wrap (count v + 1) |}]>
                                (visitors rl) |})
  end.

(** One call as the limiter sees it. *)
Record arrival := { from : string; at_time : Z; at_later : Z }.

(** Serves the arrivals in order; the answers, oldest first. *)
Fixpoint serve_all (rl : RateLimiter) (arrivals : list arrival)
  : list bool * RateLimiter :=
  match arrivals with
  | [] => ([], rl)
  | a :: rest =>
      let '(ok, rl1) := Allow rl (from a) (at_time a) (at_later a) in
      let '(oks, rl2) := serve_all rl1 rest in
      (ok :: oks, rl2)
  end.

(** How many arrivals from [ip] there are, and how many were allowed. *)
Fixpoint requests_from (ip : string) (arrivals : list arrival) : nat :=
  match arrivals with
  | [] => O
  | a :: rest =>
      if decide (from a = ip) then S (requests_from ip rest)
      else requests_from ip rest
  end.

Fixpoint allowed_from (ip : string) (arrivals : list arrival) (oks : list bool)
  : nat :=
  match arrivals, oks with
  | a :: rest, ok :: oks' =>
      if decide (from a = ip) then
        (if ok then S (allowed_from ip rest oks') else allowed_from ip rest oks')
      else allowed_from ip rest oks'
  | _, _ => O
  end.
(** The time of the first arrival from [ip], if there is one. *)
Fixpoint first_time (ip : string) (arrivals : list arrival) : option Z :=
  match arrivals with
  | [] => None
  | a :: rest =>
      if decide (from a = ip) then Some (at_time a) else first_time ip rest
  end.

(** No arrival from [ip] comes more than a minute after [t0]. *)
Definition within_minute_of (t0 : Z) (ip : string) (arrivals : list arrival) : Prop :=
  Forall (fun a => from a = ip -> at_time a - t0 <= Minute) arrivals.

(** Every recorded count is between 1 and 100. *)
Definition counts_in_range (rl : RateLimiter) : Prop :=
  forall ip v, visitors rl !! ip = Some v -> 1 <= count v <= 100.
End Limiter.

(** ** The connection-limit middleware (design document) *)

Module Middleware.
Import Types Handlers.
Local Open Scope Z_scope.

(** [strings.HasPrefix(s, prefix)] *)
Definition HasPrefix (s prefix : string) : bool := String.prefix prefix s.

(** The handler returned by [Middleware()], for a request on [path];
    [next] is the rest of the chain, [c.Next()]. *)
Definition Middleware (next : Ctx -> World -> World * Ctx * Outcome)
    (path : string) (c : Ctx) (w : World) : World * Ctx * Outcome :=
  if negb (HasPrefix path "/p/") && negb (HasPrefix path "/party/") then
    next c w
  else
    let '(ok, w) := connManager_TryAcquire w in
    if negb ok then
      (inc_RejectedStreams w,
       SendString c 503
         "Service temporarily unavailable. Too many active connections.",
       Return)
    else defer connManager_Release (next c) w.
End Middleware.

(** ** Observations on strings and on what a stream wrote *)

Module Observe.
Import Handlers.

(** Whether every byte of [s] satisfies [P]. *)
Fixpoint all_bytes (P : ascii -> bool) (s : string) : bool :=
  match s with
  | EmptyString => true
  | String a s' => P a && all_bytes P s'
  end.

(** The indices of the frames written, in the order written. *)
Fixpoint frame_indices (ws : list wire) : list Z :=
  match ws with
  | [] => []
  | WFrame frame :: ws' => frame :: frame_indices ws'
  | _ :: ws' => frame_indices ws'
  end.

Definition is_reset (w : wire) : bool :=
  match w with WResetColors => true | _ => false end.

(** Whether the colour reset was written. *)
Definition wrote_reset (ws : list wire) : bool := existsb is_reset ws.

(** The frame indices [0 .. k-1]. *)
Definition first_frames (k : nat) : list Z := map Z.of_nat (seq 0 k).
(** Whether a line is free of newlines, as every element of a split is. *)
Definition single_line (s : string) : bool :=
  all_bytes (fun a => negb (Ascii.eqb a Text.newline)) s.
(** The number of spaces [alignText] puts in front of a line. *)
Definition left_padding (align : string) (width : Z) (line : string) : Z :=
  if (Text.len line >=? width)%Z then 0%Z
  else if decide (align = "center"%string) then Z.quot (width - Text.len line) 2
  else if decide (align = "right"%string) then (width - Text.len line)%Z
  else 0%Z.

Definition padded (align : string) (width : Z) (line : string) : string :=
  Text.repeat_string " " (Z.to_nat (left_padding align width line)) +:+ line.

(** A line of the text inside a border, filled up to [maxLen]. *)
Definition framed (b : Text.border) (maxLen : Z) (line : string) : string :=
  Text.left b +:+ line
  +:+ Text.repeat_string " " (Z.to_nat (maxLen - Text.len line))
  +:+ Text.right b.

Definition box_bar (maxLen : Z) : string :=
  "+" +:+ Text.repeat_string "-" (Z.to_nat (maxLen + 2)) +:+ "+".
End Observe.

(** ** config/config.go: validation *)

Module ConfigPkg.
Local Open Scope Z_scope.

Record ServerConfig := { PublicPort : Z; AdminPort : Z; Host : string }.
Record RateLimitConfig := { RequestsPerMinute : Z; Burst : Z }.
Record StreamingConfig := {
  DefaultTimeout : Z;
  MaxTimeout : Z;
  DefaultSpeed : Z;
  BufferSize : Z
}.
Record TextConfig := { MaxLength : Z; DefaultAlign : string; DefaultBorder : string }.

Record Config := {
  Version : string;
  Server : ServerConfig;
  RateLimit : RateLimitConfig;
  Fonts : Render.FontConfig;
  Streaming : StreamingConfig;
  Text : TextConfig
}.

Inductive error :=
| InvalidPublicPort (got : Z)      (* "invalid port: public port must be between 1 and 65535, got %d" *)
| InvalidAdminPort (got : Z)       (* "invalid port: admin port must be between 1 and 65535, got %d" *)
| RateLimitNotPositive (got : Z)   (* "rate limit must be positive, got %d" *)
| BurstNotPositive (got : Z)       (* "rate limit burst must be positive, got %d" *)
| MaxLengthNotPositive (got : Z)   (* "max text length must be positive, got %d" *)
| InvalidAlignment (got : string)  (* "invalid alignment: must be left, center, or right, got %s" *)
| TimeoutNotPositive (got : Z)     (* "streaming timeout must be positive, got %d" *)
| MaxTimeoutTooSmall (max default : Z) (* "max timeout must be >= default timeout, got max=%d, default=%d" *)
| SpeedOutOfRange (got : Z).       (* "streaming speed must be between 1 and 10, got %d" *)

Definition validAlignments : list string := ["left"; "center"; "right"]%string.

Definition Validate (c : Config) : option error :=
  if (PublicPort (Server c) <? 1) || (PublicPort (Server c) >? 65535) then
    Some (InvalidPublicPort (PublicPort (Server c)))
  else if (AdminPort (Server c) <? 1) || (AdminPort (Server c) >? 65535) then
    Some (InvalidAdminPort (AdminPort (Server c)))
  else if RequestsPerMinute (RateLimit c) <? 1 then
    Some (RateLimitNotPositive (RequestsPerMinute (RateLimit c)))
  else if Burst (RateLimit c) <? 1 then
    Some (BurstNotPositive (Burst (RateLimit c)))
  else if MaxLength (Text c) <? 1 then
    Some (MaxLengthNotPositive (MaxLength (Text c)))
  else if negb (bool_decide (DefaultAlign (Text c) ∈ validAlignments)) then
    Some (InvalidAlignment (DefaultAlign (Text c)))
  else if DefaultTimeout (Streaming c) <? 1 then
    Some (TimeoutNotPositive (DefaultTimeout (Streaming c)))
  else if MaxTimeout (Streaming c) <? DefaultTimeout (Streaming c) then
    Some (MaxTimeoutTooSmall (MaxTimeout (Streaming c)) (DefaultTimeout (Streaming c)))
  else if (DefaultSpeed (Streaming c) <? 1) || (DefaultSpeed (Streaming c) >? 10) then
    Some (SpeedOutOfRange (DefaultSpeed (Streaming c)))
  else None.

(** The configuration the [envDefault] tags give when no variable is
    set. *)
Definition defaults : Config :=
  {| Version := "dev";
     Server := {| PublicPort := 8080; AdminPort := 9090; Host := "0.0.0.0" |};
     RateLimit := {| RequestsPerMinute := 100; Burst := 10 |};
     Fonts := {| Render.Default := "standard"; Render.Path := "./fonts";
                 Render.Allowed := ["standard"; "doom"; "banner"; "slant";
                                    "3d"; "speed"; "starwars"]%string |};
     Streaming := {| DefaultTimeout := 30; MaxTimeout := 300;
                     DefaultSpeed := 5; BufferSize := 4096 |};
     Text := {| MaxLength := 100; DefaultAlign := "center";
                DefaultBorder := "none" |} |}.
End ConfigPkg.

(** * Properties *)

(** ** [int64] arithmetic *)

Section Int64Facts.
Local Open Scope Z_scope.

Lemma wrap_in_range x : Int64.in_range (Int64.wrap x).
Proof.
  unfold Int64.in_range, Int64.wrap, Int64.min_int64, Int64.max_int64.
  pose proof (Z.mod_pos_bound (x + 2 ^ 63) (2 ^ 64) ltac:(lia)). lia.
Qed.

Lemma wrap_id x : Int64.in_range x -> Int64.wrap x = x.
Proof.
  unfold Int64.in_range, Int64.wrap, Int64.min_int64, Int64.max_int64.
  intros Hx. rewrite Z.mod_small; lia.
Qed.

Example wrap_overflow : Int64.wrap (Int64.max_int64 + 1) = Int64.min_int64.
Proof. reflexivity. Qed.

Example wrap_underflow : Int64.wrap (Int64.min_int64 - 1) = Int64.max_int64.
Proof. reflexivity. Qed.
End Int64Facts.

Ltac int64_bounds :=
  unfold Int64.in_range, Int64.min_int64, Int64.max_int64 in *; lia.

(** ** The connection manager, one call at a time *)

Section ConnectionManagerFacts.
Import Types.
Local Open Scope Z_scope.

Lemma TryAcquire_full cm :
  activeStreams cm >= maxStreams cm -> TryAcquire cm = (false, cm).
Proof.
  intros H. unfold TryAcquire, atomic_LoadInt64.
  destruct (Z.geb_spec (activeStreams cm) (maxStreams cm)); [reflexivity | lia].
Qed.

Lemma TryAcquire_free cm :
  well_typed cm -> activeStreams cm < maxStreams cm ->
  TryAcquire cm =
    (true, {| activeStreams := activeStreams cm + 1; maxStreams := maxStreams cm |}).
Proof.
  intros [Ha Hm] H. unfold TryAcquire, atomic_LoadInt64, atomic_AddInt64.
  destruct (Z.geb_spec (activeStreams cm) (maxStreams cm)); [lia |].
  cbn [fst]. rewrite wrap_id; [reflexivity | int64_bounds].
Qed.

Lemma Release_active cm :
  activeStreams (Release cm) = Int64.wrap (activeStreams cm - 1).
Proof. reflexivity. Qed.

Lemma Release_max cm : maxStreams (Release cm) = maxStreams cm.
Proof. reflexivity. Qed.

Lemma TryAcquire_max cm : maxStreams (snd (TryAcquire cm)) = maxStreams cm.
Proof. unfold TryAcquire. destruct (_ >=? _); reflexivity. Qed.

(** C3 *)
(** In a sequential execution [TryAcquire] below capacity adds one to
    the count and returns true; at or above capacity it changes nothing
    and returns false.  With capacity 2: two acquires succeed, the third
    fails, and after one release the fourth succeeds. *)
Theorem TryAcquire_sequential (cm : ConnectionManager) (Hty : well_typed cm) :
  (activeStreams cm < maxStreams cm ->
     fst (TryAcquire cm) = true
     /\ GetActiveCount (snd (TryAcquire cm)) = GetActiveCount cm + 1
     /\ maxStreams (snd (TryAcquire cm)) = maxStreams cm)
  /\ (activeStreams cm >= maxStreams cm -> TryAcquire cm = (false, cm))
  /\ snd (perform_all (NewConnectionManager 2)
            [CallTryAcquire; CallTryAcquire; CallTryAcquire;
             CallRelease; CallTryAcquire])
     = [Some true; Some true; Some false; None; Some true].
Proof.
  split; [| split].
  - intros Hlt. rewrite (TryAcquire_free cm Hty Hlt). cbn. auto.
  - apply TryAcquire_full.
  - reflexivity.
Qed.

Lemma TryAcquire_sequential_witness :
  well_typed (NewConnectionManager 2)
  /\ fst (TryAcquire (NewConnectionManager 2)) = true
  /\ GetActiveCount (snd (TryAcquire (NewConnectionManager 2))) = 1.
Proof.
  assert (Hty : well_typed (NewConnectionManager 2)).
  { unfold well_typed; cbn; split; int64_bounds. }
  split; [exact Hty |].
  destruct (TryAcquire_sequential (NewConnectionManager 2) Hty) as [Hfree _].
  destruct Hfree as (Hok & Hcount & _); [cbn; lia |].
  split; [exact Hok | exact Hcount].
Defined.

(** C10 *)
(** [Release] subtracts one whatever the count is: there is no test for
    a positive count, so a single [Release] on a fresh manager leaves
    [GetActiveCount] at -1. *)
Theorem Release_has_no_lower_bound :
  (forall cm, GetActiveCount (Release cm) = Int64.wrap (GetActiveCount cm - 1)
              /\ maxStreams (Release cm) = maxStreams cm)
  /\ (forall cm, Int64.min_int64 < GetActiveCount cm <= Int64.max_int64 ->
                 GetActiveCount (Release cm) = GetActiveCount cm - 1)
  /\ (forall m, GetActiveCount (Release (NewConnectionManager m)) = -1).
Proof.
  split; [| split].
  - intros cm. split; reflexivity.
  - intros cm H. unfold GetActiveCount, atomic_LoadInt64 in *.
    rewrite Release_active. apply wrap_id. int64_bounds.
  - intros m. reflexivity.
Qed.

Lemma Release_has_no_lower_bound_witness :
  GetActiveCount (Release (NewConnectionManager 5)) = 0 - 1
  /\ GetActiveCount (Release (Release (NewConnectionManager 5))) = -1 - 1.
Proof.
  destruct Release_has_no_lower_bound as (_ & Hdec & _).
  split.
  - apply (Hdec (NewConnectionManager 5)).
    vm_compute; split; [reflexivity | discriminate].
  - apply (Hdec (Release (NewConnectionManager 5))).
    vm_compute; split; [reflexivity | discriminate].
Defined.
End ConnectionManagerFacts.

(** ** Call sequences: the count is acquires minus releases *)

Section CallSequences.
Import Types.
Local Open Scope Z_scope.

Variable m : Z.
Hypothesis capacity : 0 <= m <= Int64.max_int64.

Lemma balanced_fresh : balanced m (NewConnectionManager m) tally0.
Proof. unfold balanced; cbn; lia. Qed.

Lemma balanced_TryAcquire cm t :
  balanced m cm t ->
  balanced m (snd (TryAcquire cm)) (count_call t (Some (fst (TryAcquire cm)))).
Proof.
  intros (Hmax & Hrange & Hcount).
  destruct (Z_lt_ge_dec (activeStreams cm) (maxStreams cm)) as [Hlt | Hge].
  - rewrite TryAcquire_free; [| split; int64_bounds | exact Hlt].
    unfold balanced; cbn; lia.
  - rewrite TryAcquire_full by exact Hge.
    unfold balanced; cbn; lia.
Qed.

Lemma balanced_Release cm t :
  balanced m cm t -> released t < acquired t ->
  balanced m (Release cm) (count_call t None).
Proof.
  intros (Hmax & Hrange & Hcount) Hlt.
  unfold balanced. rewrite Release_max, Release_active.
  rewrite wrap_id by int64_bounds. cbn; lia.
Qed.

Lemma perform_all_cons cm c cs :
  perform_all cm (c :: cs) =
    (fst (perform_all (fst (perform cm c)) cs),
     snd (perform cm c) :: snd (perform_all (fst (perform cm c)) cs)).
Proof.
  cbn [perform_all]. destruct (perform cm c) as [cm1 r]. cbn [fst snd].
  destruct (perform_all cm1 cs); reflexivity.
Qed.

Lemma perform_all_app cm cs1 cs2 :
  snd (perform_all cm (cs1 ++ cs2)) =
    snd (perform_all cm cs1)
    ++ snd (perform_all (fst (perform_all cm cs1)) cs2).
Proof.
  revert cm. induction cs1 as [| c cs1 IH]; intros cm.
  - reflexivity.
  - rewrite <- app_comm_cons, !perform_all_cons. cbn [fst snd].
    rewrite IH. reflexivity.
Qed.

Lemma matched_from_prefix t rs1 rs2 :
  matched_from t (rs1 ++ rs2) = true -> matched_from t rs1 = true.
Proof.
  revert t. induction rs1 as [| r rs1 IH]; intros t H; [reflexivity |].
  cbn [app matched_from] in *. destruct r as [ok |].
  - eauto.
  - apply andb_true_iff in H as [Hlt H]. rewrite Hlt. cbn. eauto.
Qed.

Lemma balanced_perform_all cs : forall cm t,
  balanced m cm t ->
  matched_from t (snd (perform_all cm cs)) = true ->
  balanced m (fst (perform_all cm cs))
           (fold_left count_call (snd (perform_all cm cs)) t).
Proof.
  induction cs as [| c cs IH]; intros cm t Hbal Hm; [exact Hbal |].
  rewrite perform_all_cons in *. cbn [fst snd fold_left matched_from] in *.
  destruct c; cbn [perform] in *.
  - destruct (TryAcquire cm) as [ok cm1] eqn:E. cbn [fst snd] in *.
    apply IH; [| exact Hm].
    pose proof (balanced_TryAcquire cm t Hbal) as Hb.
    rewrite E in Hb. exact Hb.
  - cbn [fst snd] in *. apply andb_true_iff in Hm as [Hlt Hm].
    apply IH; [| exact Hm].
    apply balanced_Release; [exact Hbal | lia].
Qed.
End CallSequences.

Section CallSequenceClaims.
Import Types.
Local Open Scope Z_scope.

(** C4 *)
(** Take any sequence of [TryAcquire] and [Release] calls on a fresh
    manager of capacity [m] in which every [Release] is matched to an
    earlier successful [TryAcquire].  After each prefix [cs1] of it (a
    quiescent point) [GetActiveCount] is the number of successful
    acquires minus the number of releases so far, and lies between 0
    and [maxStreams]. *)
Theorem active_count_balance (m : Z) (cs1 cs2 : list call)
    (Hcap : 0 <= m <= Int64.max_int64)
    (Hmatched :
       matched (snd (perform_all (NewConnectionManager m) (cs1 ++ cs2))) = true) :
  let cm := fst (perform_all (NewConnectionManager m) cs1) in
  let t := tally_of (snd (perform_all (NewConnectionManager m) cs1)) in
  GetActiveCount cm = acquired t - released t
  /\ 0 <= GetActiveCount cm <= maxStreams cm
  /\ maxStreams cm = m.
Proof.
  intros cm t.
  rewrite perform_all_app in Hmatched. apply matched_from_prefix in Hmatched.
  destruct (balanced_perform_all m Hcap cs1 _ _ (balanced_fresh m Hcap) Hmatched)
    as (Hmax & Hrange & Hcount).
  fold cm in Hmax, Hrange, Hcount. fold (tally_of (snd (perform_all (NewConnectionManager m) cs1))) in Hcount.
  fold t in Hcount. unfold GetActiveCount, atomic_LoadInt64. lia.
Qed.

Lemma active_count_balance_witness :
  let cs1 := [CallTryAcquire; CallTryAcquire; CallTryAcquire; CallRelease] in
  let cs2 := [CallTryAcquire; CallRelease; CallRelease] in
  GetActiveCount (fst (perform_all (NewConnectionManager 2) cs1)) = 2 - 1.
Proof.
  intros cs1 cs2.
  refine (proj1 (active_count_balance 2 cs1 cs2 _ _)).
  - vm_compute; split; discriminate.
  - vm_compute; reflexivity.
Defined.
End CallSequenceClaims.

(** ** Interleaved [TryAcquire] calls *)

Section RaceFacts.
Import Types Race.
Local Open Scope Z_scope.

(** The two atomic steps of one goroutine, taken back to back, are the
    sequential [TryAcquire]. *)
Lemma step_pc_twice cm :
  let '(cm1, p1) := step_pc cm Entry in
  step_pc cm1 p1 = (snd (TryAcquire cm), Returned (fst (TryAcquire cm))).
Proof.
  cbn. unfold TryAcquire, atomic_LoadInt64.
  destruct (activeStreams cm >=? maxStreams cm); reflexivity.
Qed.

(** Capacity 1, two goroutines, one after the other: the second is
    refused. *)
Example serial_schedule :
  let c := run (start 1 2) [0; 0; 1; 1]%nat in
  goroutines c = [Returned true; Returned false]
  /\ GetActiveCount (shared c) = 1.
Proof. split; reflexivity. Qed.

(** C1 *)
(** Capacity 1 and two goroutines in [TryAcquire]: when both perform the
    load before either performs the add, both read 0, both add, both
    return true, and the count ends at 2, above [maxStreams].  So it is
    not the case that the count stays within [maxStreams] under every
    interleaving. *)
Theorem TryAcquire_over_admits :
  (let c := run (start 1 2) [0; 1; 0; 1]%nat in
   goroutines c = [Returned true; Returned true]
   /\ admitted c = 2%nat
   /\ GetActiveCount (shared c) = 2
   /\ maxStreams (shared c) = 1)
  /\ ~ (forall (m : Z) (n : nat) (schedule : list nat),
          0 <= m <= Int64.max_int64 ->
          GetActiveCount (shared (run (start m n) schedule)) <= m).
Proof.
  split.
  - repeat split; reflexivity.
  - intros H. specialize (H 1 2%nat [0; 1; 0; 1]%nat).
    vm_compute in H. apply H; [split; discriminate | reflexivity].
Qed.
End RaceFacts.

(** ** The font cache *)

Section FontCacheFacts.
Import Types Render.

Variable File : Type.
Variable os_Stat : string -> stat_result.
Variable os_Open : string -> option File.
Variable filepath_Join : string -> string -> string.

Local Abbreviation ValidateFont := (ValidateFont File os_Stat os_Open).
Local Abbreviation validates := (validates File os_Stat os_Open filepath_Join).
Local Abbreviation load_one := (load_one File os_Stat os_Open filepath_Join).
Local Abbreviation LoadFonts := (LoadFonts File os_Stat os_Open filepath_Join).
Local Abbreviation font_entry := (font_entry filepath_Join).

(** Validation succeeds exactly on an existing non-directory that can be
    opened. *)
Lemma ValidateFont_ok path :
  ValidateFont path = None <->
  os_Stat path = StatInfo false /\ is_Some (os_Open path).
Proof.
  unfold ValidateFont.
  destruct (os_Stat path) as [| | [|]]; try (split; [discriminate | intros [? _]; discriminate]).
  destruct (os_Open path) as [f |].
  - split; [eauto | reflexivity].
  - split; [discriminate | intros [_ [f Hf]]; discriminate].
Qed.

Lemma load_one_valid dir m n lg name :
  validates dir name = true ->
  load_one dir (m, n, lg) name =
    (<[name := font_entry dir name]> m, (n + 1)%Z, lg ++ [LogLoaded name]).
Proof.
  unfold Render.validates, Render.load_one, Render.font_entry. cbn [fontPath].
  destruct (ValidateFont _); [discriminate | reflexivity].
Qed.

Lemma load_one_invalid dir m n lg name :
  validates dir name = false ->
  exists err, load_one dir (m, n, lg) name = (m, n, lg ++ [LogWarning name err]).
Proof.
  unfold Render.validates, Render.load_one, Render.font_entry. cbn [fontPath].
  destruct (ValidateFont _) as [err |]; [eauto | discriminate].
Qed.

(** The loop of [LoadFonts], from any intermediate state. *)
Lemma load_loop dir names : forall m n lg,
  let '(m', n', _) := fold_left (load_one dir) names (m, n, lg) in
  (forall name, name ∈ names -> validates dir name = true ->
                m' !! name = Some (font_entry dir name))
  /\ (forall name, ~ (name ∈ names /\ validates dir name = true) ->
                   m' !! name = m !! name)
  /\ n' = (n + Z.of_nat (length (List.filter (validates dir) names)))%Z.
Proof.
  induction names as [| x names IH]; intros m n lg.
  - cbn. repeat split; [| lia]. intros name H. inversion H.
  - cbn [fold_left List.filter].
    destruct (validates dir x) eqn:Hx.
    + rewrite (load_one_valid dir m n lg x Hx).
      specialize (IH (<[x := font_entry dir x]> m) (n + 1)%Z (lg ++ [LogLoaded x])).
      destruct (fold_left _ names _) as [[m' n'] lg'].
      destruct IH as (Hin & Hout & Hn). repeat split.
      * intros name Hname Hv.
        destruct (decide (name ∈ names)) as [Hmem | Hmem]; [auto |].
        rewrite Hout by tauto.
        apply elem_of_cons in Hname as [-> | ?]; [| contradiction].
        apply lookup_insert_eq.
      * intros name Hname. rewrite Hout.
        -- apply lookup_insert_ne. intros ->. apply Hname.
           split; [left | exact Hx].
        -- intros [Hmem Hv]. apply Hname. split; [by right | exact Hv].
      * cbn [length]. lia.
    + destruct (load_one_invalid dir m n lg x Hx) as [err ->].
      specialize (IH m n (lg ++ [LogWarning x err])).
      destruct (fold_left _ names _) as [[m' n'] lg'].
      destruct IH as (Hin & Hout & Hn). repeat split.
      * intros name Hname Hv. apply Hin; [| exact Hv].
        apply elem_of_cons in Hname as [-> | ?]; [congruence | assumption].
      * intros name Hname. apply Hout.
        intros [Hmem Hv]. apply Hname. split; [by right | exact Hv].
      * exact Hn.
Qed.

(** The last line logged is the count. *)
Lemma LoadFonts_shape fc cfg :
  exists m n lg,
    fold_left (load_one (Path cfg)) (Allowed cfg) (fonts fc, 0%Z, []) = (m, n, lg)
    /\ LoadFonts fc cfg = ({| fonts := m |}, None, lg ++ [LogLoadedCount n]).
Proof.
  unfold Render.LoadFonts.
  destruct (fold_left _ _ _) as [[m n] lg]. eauto.
Qed.

(** Without repeated names the count is the number of entries a fresh
    cache ends up with. *)
Lemma filter_size dir names (m : gmap string Font) :
  NoDup names ->
  (forall name, is_Some (m !! name) <-> name ∈ names /\ validates dir name = true) ->
  size m = length (List.filter (validates dir) names).
Proof.
  intros Hnd. revert m. induction Hnd as [| x names Hx Hnd IH]; intros m Hm.
  - cbn. apply map_size_empty_iff, map_eq. intros k. rewrite lookup_empty.
    destruct (m !! k) eqn:E; [| reflexivity].
    destruct (proj1 (Hm k) (mk_is_Some _ _ E)) as [H _]. inversion H.
  - cbn [List.filter]. destruct (validates dir x) eqn:Hv.
    + destruct (proj2 (Hm x)) as [f Hf]; [split; [left | exact Hv] |].
      rewrite <- (insert_delete_id m x f Hf).
      rewrite map_size_insert_None by apply lookup_delete_eq.
      cbn [length]. f_equal. apply IH. intros name.
      destruct (decide (name = x)) as [-> | Hne].
      * rewrite lookup_delete_eq. split; [intros [? ?]; discriminate | tauto].
      * rewrite lookup_delete_ne by congruence. rewrite Hm.
        rewrite elem_of_cons. tauto.
    + apply IH. intros name. rewrite Hm, elem_of_cons.
      split; [| tauto]. intros [[-> | ?] ?]; [congruence | tauto].
Qed.
End FontCacheFacts.

Section FontCacheClaims.
Import Types Render.

(** C8 *)
(** Whatever the directory, the allowed names and the state of the
    disk, [LoadFonts] on a fresh cache returns no error (also when
    nothing loads); a name is in the cache afterwards exactly when it
    is an allowed name whose file validates, that is, exists, is not a
    directory and can be opened; every other name is skipped with a
    warning and the loop goes on.  The count logged at the end is the
    number of allowed entries that validated, which is the size of the
    cache when no name is repeated.  With [standard; doom; missing-file]
    and no [missing-file.flf] on disk the cache holds exactly
    [standard] and [doom] and the count is 2. *)
Theorem LoadFonts_populates :
  (forall (File : Type) (os_Stat : string -> stat_result)
          (os_Open : string -> option File)
          (filepath_Join : string -> string -> string) (cfg : FontConfig),
     let ok := validates File os_Stat os_Open filepath_Join (Path cfg) in
     let path name := filepath_Join (Path cfg) (name +:+ ".flf") in
     let '(fc, err, lg) :=
       LoadFonts File os_Stat os_Open filepath_Join NewFontCache cfg in
     err = None
     /\ (forall name, ok name = true <->
           os_Stat (path name) = StatInfo false /\ is_Some (os_Open (path name)))
     /\ (forall name, is_Some (fonts fc !! name) <->
           name ∈ Allowed cfg /\ ok name = true)
     /\ (forall name f, fonts fc !! name = Some f ->
           f = {| Name := name; fontPath := path name |})
     /\ last lg = Some (LogLoadedCount
                          (Z.of_nat (length (List.filter ok (Allowed cfg)))))
     /\ (NoDup (Allowed cfg) ->
           size (fonts fc) = length (List.filter ok (Allowed cfg))))
  /\ LoadFonts string demo_Stat demo_Open demo_Join NewFontCache demo_config
     = ({| fonts := {[ "standard" := {| Name := "standard";
                                        fontPath := "fonts/standard.flf" |};
                       "doom" := {| Name := "doom";
                                    fontPath := "fonts/doom.flf" |} ]} |},
        None,
        [LogLoaded "standard"; LogLoaded "doom";
         LogWarning "missing-file"
           (ErrFontFileDoesNotExist "fonts/missing-file.flf");
         LogLoadedCount 2])%string
  /\ dom (fonts (fst (fst (LoadFonts string demo_Stat demo_Open demo_Join
                             NewFontCache demo_config))))
     = ({[ "standard"; "doom" ]} : gset string)%string.
Proof.
  split; [| split; vm_compute; reflexivity].
  intros File os_Stat os_Open filepath_Join cfg ok path.
  destruct (LoadFonts_shape File os_Stat os_Open filepath_Join NewFontCache cfg)
    as (m & n & lg & Hfold & ->).
  pose proof (load_loop File os_Stat os_Open filepath_Join
                (Path cfg) (Allowed cfg) (fonts NewFontCache) 0%Z []) as Hloop.
  rewrite Hfold in Hloop. destruct Hloop as (Hin & Hout & Hn).
  cbn [fonts NewFontCache] in Hout.
  assert (Hdom : forall name, is_Some (m !! name) <->
                   name ∈ Allowed cfg /\ ok name = true).
  { intros name. split.
    - intros Hsome.
      destruct (decide (name ∈ Allowed cfg)) as [Hmem | Hmem];
        destruct (ok name) eqn:Hok; try tauto;
        rewrite Hout, lookup_empty in Hsome by (subst ok; intros [? ?]; congruence);
        destruct Hsome; discriminate.
    - intros [Hmem Hok]. rewrite (Hin name Hmem Hok). eauto. }
  cbn [fonts]. split; [reflexivity |]. split; [| split; [exact Hdom |]].
  - intros name. subst ok path. unfold validates, font_entry. cbn [fontPath].
    rewrite <- ValidateFont_ok.
    destruct (ValidateFont _ _ _ _); split; congruence.
  - split; [| split].
    + intros name f Hf.
      destruct (proj1 (Hdom name) (mk_is_Some _ _ Hf)) as [Hmem Hok].
      rewrite (Hin name Hmem Hok) in Hf. injection Hf as <-. reflexivity.
    + rewrite last_snoc. rewrite Hn. do 2 f_equal.
    + intros Hnd. cbn [fonts].
      apply (filter_size File os_Stat os_Open filepath_Join (Path cfg));
        assumption.
Qed.

Lemma LoadFonts_populates_witness :
  fonts (fst (fst (LoadFonts string demo_Stat demo_Open demo_Join
                     NewFontCache demo_config))) !! "doom"%string
  = Some {| Name := "doom"; fontPath := "fonts/doom.flf" |}.
Proof.
  pose proof (proj1 LoadFonts_populates string demo_Stat demo_Open demo_Join
                demo_config) as H.
  cbv zeta in H.
  destruct (LoadFonts string demo_Stat demo_Open demo_Join NewFontCache demo_config)
    as [[fc err] lg] eqn:E.
  destruct H as (_ & _ & Hdom & Hval & _). cbn [fst].
  destruct (proj2 (Hdom "doom"%string)) as [f Hf].
  - split; [| vm_compute; reflexivity].
    apply (bool_decide_unpack ("doom"%string ∈ Allowed demo_config)).
    vm_compute. exact I.
  - rewrite Hf. f_equal. apply (Hval _ _ Hf).
Defined.
End FontCacheClaims.

(** ** The render entry point *)

Section GenerateASCIIClaims.
Import Types Render.

Lemma GetFontOrDefault_fallback (fc : FontCache) name defaultName :
  fonts fc !! name = None ->
  GetFontOrDefault fc name defaultName = fonts fc !! defaultName.
Proof.
  intros H. unfold GetFontOrDefault. rewrite H.
  destruct (fonts fc !! defaultName); reflexivity.
Qed.

Lemma GetFontOrDefault_same (fc : FontCache) name :
  GetFontOrDefault fc name name = fonts fc !! name.
Proof.
  unfold GetFontOrDefault. destruct (fonts fc !! name); reflexivity.
Qed.

(** C6 *)
(** On the empty string [GenerateASCII] returns the empty output and no
    error, whatever the options and whatever the cache holds. *)
Theorem GenerateASCII_empty_text :
  forall (File : Type) (os_Open : string -> option File)
         (figure_String : string -> File -> string)
         (opts : RenderOptions) (cache : FontCache),
    GenerateASCII File os_Open figure_String "" opts (Some cache)
    = (""%string, None).
Proof. intros. reflexivity. Qed.

(** C7 *)
(** When the font named in the options is not in the cache and the
    default font is, [GenerateASCII] returns what it returns for the
    same options with the font set to the default name. *)
Theorem GenerateASCII_unknown_font_is_default
    (File : Type) (os_Open : string -> option File)
    (figure_String : string -> File -> string)
    (text : string) (opts : RenderOptions) (cache : FontCache) (f : Font)
    (Hdefault : fonts cache !! DefaultFont = Some f)
    (Hunknown : fonts cache !! Types.Font opts = None) :
  GenerateASCII File os_Open figure_String text opts (Some cache)
  = GenerateASCII File os_Open figure_String text
      (with_font opts DefaultFont) (Some cache).
Proof.
  unfold GenerateASCII. destruct (decide (text = ""%string)); [reflexivity |].
  cbn [with_font Types.Font].
  rewrite (GetFontOrDefault_fallback cache _ _ Hunknown).
  rewrite GetFontOrDefault_same. reflexivity.
Qed.

Lemma GenerateASCII_unknown_font_is_default_witness :
  GenerateASCII string demo_Open demo_figure "HI"
    (demo_opts "nonexistent") (Some demo_cache)
  = GenerateASCII string demo_Open demo_figure "HI"
      (with_font (demo_opts "nonexistent") DefaultFont) (Some demo_cache).
Proof.
  apply (GenerateASCII_unknown_font_is_default string demo_Open demo_figure
           "HI" (demo_opts "nonexistent") demo_cache
           {| Name := "standard"; fontPath := "fonts/standard.flf" |}).
  - vm_compute. reflexivity.
  - vm_compute. reflexivity.
Defined.

Example fallback_output :
  GenerateASCII string demo_Open demo_figure "HI"
    (demo_opts "nonexistent") (Some demo_cache)
  = ("fonts/standard.flf:HI"%string, None).
Proof. vm_compute. reflexivity. Qed.

(** C5 *)
(** With a nil cache [GenerateASCII] fails with "font cache is nil" for
    every text and every options value.  With a cache that holds no
    font, and more generally one that holds neither the requested nor
    the default font, it fails with "no fonts loaded" for every text
    other than the empty string. *)
Theorem GenerateASCII_cache_errors
    (File : Type) (os_Open : string -> option File)
    (figure_String : string -> File -> string)
    (text : string) (opts : RenderOptions) :
  GenerateASCII File os_Open figure_String text opts None
  = (""%string, Some ErrFontCacheIsNil)
  /\ (forall cache, text <> ""%string -> fonts cache = ∅ ->
        GenerateASCII File os_Open figure_String text opts (Some cache)
        = (""%string, Some ErrNoFontsLoaded))
  /\ (forall cache, text <> ""%string ->
        fonts cache !! Types.Font opts = None ->
        fonts cache !! DefaultFont = None ->
        GenerateASCII File os_Open figure_String text opts (Some cache)
        = (""%string, Some ErrNoFontsLoaded)).
Proof.
  assert (Hgen : forall cache, text <> ""%string ->
            fonts cache !! Types.Font opts = None ->
            fonts cache !! DefaultFont = None ->
            GenerateASCII File os_Open figure_String text opts (Some cache)
            = (""%string, Some ErrNoFontsLoaded)).
  { intros cache Htext Hreq Hdef. unfold GenerateASCII.
    destruct (decide (text = ""%string)); [contradiction |].
    rewrite (GetFontOrDefault_fallback cache _ _ Hreq), Hdef. reflexivity. }
  split; [reflexivity | split; [| exact Hgen]].
  intros cache Htext Hempty. apply Hgen; [exact Htext | |];
    rewrite Hempty; apply lookup_empty.
Qed.

Lemma GenerateASCII_cache_errors_witness :
  GenerateASCII string demo_Open demo_figure "TEST"
    (demo_opts "standard") (Some NewFontCache)
  = (""%string, Some ErrNoFontsLoaded).
Proof.
  refine (proj1 (proj2 (GenerateASCII_cache_errors string demo_Open demo_figure
                          "TEST" (demo_opts "standard"))) NewFontCache _ _).
  - discriminate.
  - reflexivity.
Defined.

(** "For every input text" is too strong for the empty cache: the test
    for the empty text comes before the font lookup. *)
Lemma GenerateASCII_empty_text_empty_cache :
  fonts NewFontCache = ∅
  /\ GenerateASCII string demo_Open demo_figure ""
       (demo_opts "standard") (Some NewFontCache)
     = (""%string, None)
  /\ snd (GenerateASCII string demo_Open demo_figure ""
            (demo_opts "standard") (Some NewFontCache))
     <> Some ErrNoFontsLoaded.
Proof. split; [reflexivity | split; [reflexivity | discriminate]]. Qed.
End GenerateASCIIClaims.

(** ** The effective deadline *)

Section DeadlineClaims.
Import Types Handlers.
Local Open Scope Z_scope.

Lemma Duration_Seconds_int_whole s : Duration_Seconds_int (s * Second) = s.
Proof. unfold Duration_Seconds_int. apply Z.quot_mul. discriminate. Qed.

Lemma DefaultStreamTimeout_seconds :
  Duration_Seconds_int DefaultStreamTimeout = 300.
Proof. reflexivity. Qed.

Lemma timeoutDuration_positive cfg opts :
  0 < Timeout opts -> Int64.in_range (Timeout opts * Second) ->
  timeoutDuration cfg opts = Z.min (Timeout opts * Second) (MaxStreamDuration cfg).
Proof.
  intros Hpos Hrange. unfold timeoutDuration.
  destruct (Z.gtb_spec (Timeout opts) 0); [| lia].
  rewrite wrap_id by exact Hrange.
  destruct (Z.gtb_spec (Timeout opts * Second) (MaxStreamDuration cfg)); lia.
Qed.

(** What [partyHandler] leaves in [opts.Timeout]. *)
Lemma apply_timeout_limits_Timeout maxSeconds opts :
  Timeout (apply_timeout_limits (server maxSeconds) opts) =
    if (Timeout opts =? 0) || (Timeout opts >? maxSeconds)
    then 300 else Timeout opts.
Proof.
  unfold apply_timeout_limits, server. cbn [MaxStreamDuration].
  rewrite Duration_Seconds_int_whole.
  destruct ((Timeout opts =? 0) || (Timeout opts >? maxSeconds)); reflexivity.
Qed.

Lemma effective_deadline_eq maxSeconds opts :
  0 <= Timeout opts -> Int64.in_range (maxSeconds * Second) ->
  effective_deadline (server maxSeconds) opts =
    Z.min (if (Timeout opts =? 0) || (Timeout opts >? maxSeconds)
           then DefaultStreamTimeout else Timeout opts * Second)
          (maxSeconds * Second).
Proof.
  intros Hreq Hmax. unfold effective_deadline.
  pose proof (apply_timeout_limits_Timeout maxSeconds opts) as Ht.
  destruct (Z.eqb_spec (Timeout opts) 0) as [H0 | H0];
    destruct (Z.gtb_spec (Timeout opts) maxSeconds) as [Hgt | Hle];
    cbn [orb] in *;
    (rewrite timeoutDuration_positive;
     [ rewrite Ht; reflexivity
     | rewrite Ht; lia
     | rewrite Ht; unfold Second, Millisecond in *; int64_bounds ]).
Qed.

(** C9 *)
(** For a requested timeout of [T >= 0] seconds and a server maximum of
    a whole number [M] of seconds, the deadline of the stream is the
    smaller of [T'] and the maximum, where [T'] is the server default
    (5 minutes) when [T] is 0 or [T] exceeds [M], and [T] otherwise.
    That is the minimum of the requested timeout and the maximum, the
    default standing in for 0, whenever [T <= M] or the maximum does not
    exceed the default.  Requested 100 s under a maximum of 30 s: 30 s. *)
Theorem effective_deadline_clamped (maxSeconds : Z) (opts : RenderOptions)
    (Hreq : 0 <= Timeout opts)
    (Hmax : Int64.in_range (maxSeconds * Second)) :
  let cfg := server maxSeconds in
  let requested :=
    if (Timeout opts =? 0) || (Timeout opts >? maxSeconds)
    then DefaultStreamTimeout else Timeout opts * Second in
  effective_deadline cfg opts = Z.min requested (MaxStreamDuration cfg)
  /\ (Timeout opts <= maxSeconds ->
        effective_deadline cfg opts = spec_effective_deadline cfg opts)
  /\ (MaxStreamDuration cfg <= DefaultStreamTimeout ->
        effective_deadline cfg opts = spec_effective_deadline cfg opts)
  /\ effective_deadline (server 30) (parsed (demo_request "HI" 100))
     = 30 * Second.
Proof.
  intros cfg requested. subst cfg requested.
  rewrite (effective_deadline_eq maxSeconds opts Hreq Hmax).
  unfold spec_effective_deadline, server. cbn [MaxStreamDuration].
  split; [reflexivity |].
  split; [| split; [| reflexivity]].
  - intros Hle.
    destruct (Z.eqb_spec (Timeout opts) 0);
      destruct (Z.gtb_spec (Timeout opts) maxSeconds); cbn [orb]; lia.
  - unfold DefaultStreamTimeout, Minute, Second, Millisecond. intros Hle.
    destruct (Z.eqb_spec (Timeout opts) 0);
      destruct (Z.gtb_spec (Timeout opts) maxSeconds); cbn [orb]; lia.
Qed.

Lemma effective_deadline_clamped_witness :
  effective_deadline (server 600) (parsed (demo_request "HI" 45))
  = Z.min (45 * Second) (600 * Second).
Proof.
  refine (proj1 (effective_deadline_clamped 600 (parsed (demo_request "HI" 45)) _ _)).
  - vm_compute. discriminate.
  - vm_compute. split; discriminate.
Defined.

(** The plain minimum fails when the request exceeds a maximum that
    is itself above the default: 1000 s requested under a maximum of
    600 s gives 300 s, not 600 s. *)
Lemma effective_deadline_not_min :
  effective_deadline (server 600) (parsed (demo_request "HI" 1000)) = 300 * Second
  /\ spec_effective_deadline (server 600) (parsed (demo_request "HI" 1000))
     = 600 * Second
  /\ effective_deadline (server 600) (parsed (demo_request "HI" 1000))
     <> spec_effective_deadline (server 600) (parsed (demo_request "HI" 1000)).
Proof. split; [reflexivity | split; [reflexivity | discriminate]]. Qed.
End DeadlineClaims.

(** ** Every admitted session releases its slot once *)

Section SessionFacts.
Import Types Handlers.
Local Open Scope Z_scope.

Variable config_Server : ServerConfig.
Variable generateASCII : string -> RenderOptions -> generated.

Local Abbreviation streamAnimated := (streamAnimated config_Server generateASCII).
Local Abbreviation partyHandler := (partyHandler config_Server generateASCII).
Local Abbreviation serve := (serve config_Server generateASCII).

(** [streamAnimated] touches the metrics only. *)
Lemma streamAnimated_connManager c text opts w :
  let w' := fst (fst (streamAnimated c text opts w)) in
  connManager w' = connManager w /\ cm_calls w' = cm_calls w.
Proof.
  unfold Handlers.streamAnimated, defer.
  destruct (generateASCII text opts); cbn; auto.
Qed.

(** The writer runs on the connection, not on the process state. *)
Lemma serve_world req ticks w :
  world_of (serve req ticks w) = fst (fst (partyHandler fresh_ctx req w)).
Proof.
  unfold Handlers.serve, world_of.
  destruct (partyHandler fresh_ctx req w) as [[w' c] out]. cbn [fst].
  destruct out; [| reflexivity].
  destruct (body c); try reflexivity.
  destruct (run_writer writer ticks). reflexivity.
Qed.

Lemma partyHandler_rejected c req w :
  fst (TryAcquire (connManager w)) = false ->
  let '(w', c', out) := partyHandler c req w in
  cm_calls w' = cm_calls w ++ [Some false]
  /\ connManager w' = connManager w
  /\ status c' = 503 /\ out = Return.
Proof.
  intros Hfull. unfold Handlers.partyHandler, connManager_TryAcquire.
  cbn [inc_PartyRequests set_metrics connManager metrics cm_calls].
  unfold TryAcquire in *.
  destruct (atomic_LoadInt64 (connManager w) >=? maxStreams (connManager w));
    [| discriminate].
  cbn. auto.
Qed.

Lemma partyHandler_admitted c req w :
  fst (TryAcquire (connManager w)) = true ->
  let w' := fst (fst (partyHandler c req w)) in
  cm_calls w' = cm_calls w ++ [Some true; None]
  /\ connManager w' = Release (snd (TryAcquire (connManager w))).
Proof.
  intros Hok. unfold Handlers.partyHandler, connManager_TryAcquire.
  cbn [inc_PartyRequests set_metrics connManager metrics cm_calls].
  destruct (TryAcquire (connManager w)) as [ok cm] eqn:E.
  cbn [fst snd] in *. subst ok. cbn [negb]. unfold defer.
  set (w1 := {| connManager := cm; metrics := _; cm_calls := _ |}).
  assert (Hrel : forall (w2 : World) (c2 : Ctx) (o2 : Outcome),
            connManager w2 = connManager w1 -> cm_calls w2 = cm_calls w1 ->
            let w' := fst (fst (connManager_Release w2, c2, o2)) in
            cm_calls w' = cm_calls w ++ [Some true; None]
            /\ connManager w' = Release cm).
  { intros w2 c2 o2 Hcm Hcalls. cbn. rewrite Hcm, Hcalls. subst w1. cbn.
    rewrite <- app_assoc. auto. }
  destruct (decide (param_star req = ""%string)); [apply Hrel; reflexivity |].
  destruct (String.length _ =? 0)%nat; [apply Hrel; reflexivity |].
  destruct (validateOptions (parsed req)); [apply Hrel; reflexivity |].
  match goal with
  | |- context [streamAnimated ?c ?t ?o ?w0] =>
      pose proof (streamAnimated_connManager c t o w0) as Hs;
      destruct (streamAnimated c t o w0) as [[w2 c2] o2]
  end.
  cbn [fst] in Hs. destruct Hs as [Hcm Hcalls]. apply Hrel; assumption.
Qed.
End SessionFacts.

Section SessionClaims.
Import Types Handlers.
Local Open Scope Z_scope.

(** C2 *)
(** Whatever the server configuration, the renderer, the request and
    the fate of the connection (render failure or panic, rejected input,
    timeout, disconnect, fault in the loop), a session whose
    [TryAcquire] returned true ends with exactly one [Release] recorded
    on the connection manager, made after the acquire and with no other
    call in between; on a well-typed manager the count is back to its
    value before the session. *)
Theorem admitted_session_releases_once
    (config_Server : ServerConfig)
    (generateASCII : string -> RenderOptions -> generated)
    (req : Request) (ticks : list tick) (w : World)
    (Hadmitted : fst (TryAcquire (connManager w)) = true) :
  let w' := world_of (serve config_Server generateASCII req ticks w) in
  cm_calls w' = cm_calls w ++ [Some true; None]
  /\ release_calls (cm_calls w') = S (release_calls (cm_calls w))
  /\ (well_typed (connManager w) ->
        GetActiveCount (connManager w') = GetActiveCount (connManager w)).
Proof.
  intros w'. subst w'. rewrite serve_world.
  destruct (partyHandler_admitted config_Server generateASCII fresh_ctx req w
              Hadmitted) as [Hcalls Hcm].
  split; [exact Hcalls |]. split.
  - rewrite Hcalls. unfold release_calls.
    rewrite List.filter_app, length_app. cbn. lia.
  - intros Hty. rewrite Hcm.
    assert (Hlt : activeStreams (connManager w) < maxStreams (connManager w)).
    { unfold TryAcquire, atomic_LoadInt64 in Hadmitted.
      destruct (Z.geb_spec (activeStreams (connManager w))
                           (maxStreams (connManager w))); [discriminate | lia]. }
    rewrite (TryAcquire_free _ Hty Hlt). cbn [snd].
    unfold GetActiveCount, atomic_LoadInt64. rewrite Release_active.
    cbn [activeStreams]. destruct Hty as [Ha Hm].
    rewrite wrap_id by int64_bounds. lia.
Qed.

Lemma admitted_session_releases_once_witness :
  cm_calls (world_of (serve (server 30) demo_generateASCII
                        (demo_request "HI" 100)
                        [TickFlushed; TickFlushed; TickFlushFailed]
                        (demo_world 2)))
  = [] ++ [Some true; None].
Proof.
  refine (proj1 (admitted_session_releases_once (server 30) demo_generateASCII
                   (demo_request "HI" 100)
                   [TickFlushed; TickFlushed; TickFlushFailed]
                   (demo_world 2) _)).
  vm_compute. reflexivity.
Defined.

(** The exit paths, one request each on a server of capacity 2. *)

Example path_timeout :
  let r := serve (server 30) demo_generateASCII (demo_request "HI" 100)
             [TickFlushed; TickFlushed] (demo_world 2) in
  snd (fst r) = [WClearScreen; WFlush;
                 WCursorHome; WFrame 0; WFlush;
                 WCursorHome; WFrame 1; WFlush;
                 WResetColors; WFlush]
  /\ snd r = Return
  /\ cm_calls (world_of r) = [Some true; None]
  /\ GetActiveCount (connManager (world_of r)) = 0.
Proof. vm_compute. auto 6. Qed.

Example path_disconnect :
  let r := serve (server 30) demo_generateASCII (demo_request "HI" 100)
             [TickFlushed; TickFlushFailed; TickFlushed] (demo_world 2) in
  snd (fst r) = [WClearScreen; WFlush;
                 WCursorHome; WFrame 0; WFlush;
                 WCursorHome; WFrame 1; WFlush]
  /\ cm_calls (world_of r) = [Some true; None]
  /\ GetActiveCount (connManager (world_of r)) = 0.
Proof. vm_compute. auto. Qed.

Example path_render_failure :
  let r := serve (server 30) demo_generateASCII (demo_request "ERR" 0)
             [TickFlushed] (demo_world 2) in
  status (ctx_of r) = 500
  /\ snd (fst r) = []
  /\ TotalErrors (metrics (world_of r)) = 1
  /\ cm_calls (world_of r) = [Some true; None]
  /\ GetActiveCount (connManager (world_of r)) = 0.
Proof. vm_compute. auto 6. Qed.

Example path_panic :
  let r := serve (server 30) demo_generateASCII (demo_request "PANIC" 0)
             [TickFlushed] (demo_world 2) in
  snd r = Panic
  /\ ActiveStreams (metrics (world_of r)) = 0
  /\ cm_calls (world_of r) = [Some true; None]
  /\ GetActiveCount (connManager (world_of r)) = 0.
Proof. vm_compute. auto 6. Qed.

Example path_fault_in_loop :
  let r := serve (server 30) demo_generateASCII (demo_request "HI" 0)
             [TickFlushed; TickFault] (demo_world 2) in
  snd r = Panic
  /\ cm_calls (world_of r) = [Some true; None].
Proof. vm_compute. auto. Qed.

Example path_no_text :
  let r := serve (server 30) demo_generateASCII (demo_request "" 0)
             [] (demo_world 2) in
  status (ctx_of r) = 400
  /\ cm_calls (world_of r) = [Some true; None].
Proof. vm_compute. auto. Qed.

Example path_rejected :
  let r := serve (server 30) demo_generateASCII (demo_request "HI" 0)
             [] (demo_world 0) in
  status (ctx_of r) = 503
  /\ RejectedStreams (metrics (world_of r)) = 1
  /\ cm_calls (world_of r) = [Some false]
  /\ release_calls (cm_calls (world_of r)) = 0%nat.
Proof. vm_compute. auto 6. Qed.
End SessionClaims.

(** * Further properties of the code *)

(** ** The connection manager: filling up and handing back *)

Section CapacityFacts.
Import Types.
Local Open Scope Z_scope.

Lemma perform_all_acquires (k : nat) : forall cm,
  well_typed cm -> 0 <= activeStreams cm ->
  activeStreams cm + Z.of_nat k <= maxStreams cm ->
  perform_all cm (replicate k CallTryAcquire) =
    ({| activeStreams := activeStreams cm + Z.of_nat k;
        maxStreams := maxStreams cm |},
     replicate k (Some true)).
Proof.
  induction k as [| k IH]; intros cm Hty Hpos Hroom.
  - cbn. rewrite Z.add_0_r. destruct cm; reflexivity.
  - cbn [replicate]. rewrite perform_all_cons. cbn [perform].
    rewrite (TryAcquire_free cm Hty) by lia. cbn [fst snd].
    destruct Hty as [Ha Hm].
    rewrite IH; cbn [activeStreams maxStreams].
    + cbn [fst snd replicate]. f_equal. f_equal. lia.
    + split; cbn [activeStreams maxStreams]; [int64_bounds | exact Hm].
    + lia.
    + lia.
Qed.

(** X1 *)
(** A fresh manager of capacity [N] grants exactly [N] consecutive
    acquires; the next one is refused and changes nothing; once one
    holder has released, an acquire is granted again and the count is
    back at [N]. *)
Theorem capacity_is_exact (N : Z) (Hcap : 0 <= N <= Int64.max_int64) :
  let full := fst (perform_all (NewConnectionManager N)
                     (replicate (Z.to_nat N) CallTryAcquire)) in
  snd (perform_all (NewConnectionManager N)
         (replicate (Z.to_nat N) CallTryAcquire))
  = replicate (Z.to_nat N) (Some true)
  /\ GetActiveCount full = N
  /\ TryAcquire full = (false, full)
  /\ (1 <= N ->
        fst (TryAcquire (Release full)) = true
        /\ GetActiveCount (snd (TryAcquire (Release full))) = N).
Proof.
  intros full. subst full.
  rewrite perform_all_acquires;
    [| split; cbn; int64_bounds | cbn; lia | cbn; lia ].
  cbn [fst snd NewConnectionManager activeStreams maxStreams].
  rewrite Z2Nat.id by lia. rewrite Z.add_0_l.
  split; [reflexivity |]. split; [reflexivity |].
  split; [apply TryAcquire_full; cbn; lia |].
  intros Hone.
  assert (Hrel : Release {| activeStreams := N; maxStreams := N |}
                 = {| activeStreams := N - 1; maxStreams := N |}).
  { unfold Release, atomic_AddInt64. cbn [fst activeStreams maxStreams].
    rewrite wrap_id by int64_bounds. f_equal. }
  rewrite Hrel, TryAcquire_free;
    [| split; cbn; int64_bounds | cbn; lia].
  cbn. split; [reflexivity | lia].
Qed.

Lemma capacity_is_exact_witness :
  snd (perform_all (NewConnectionManager 3) (replicate 3 CallTryAcquire))
  = [Some true; Some true; Some true].
Proof.
  refine (proj1 (capacity_is_exact 3 _)).
  vm_compute. split; discriminate.
Defined.

(** X2 *)
(** On a manager below capacity an acquire followed by a release gives
    back the manager exactly as it was. *)
Theorem acquire_release_round_trip (cm : ConnectionManager)
    (Hty : well_typed cm) (Hfree : activeStreams cm < maxStreams cm) :
  fst (TryAcquire cm) = true /\ Release (snd (TryAcquire cm)) = cm.
Proof.
  rewrite (TryAcquire_free cm Hty Hfree). cbn [fst snd].
  split; [reflexivity |].
  unfold Release, atomic_AddInt64. cbn [fst activeStreams maxStreams].
  destruct Hty as [Ha Hm]. rewrite wrap_id by int64_bounds.
  destruct cm as [a m]. cbn. f_equal. lia.
Qed.

Lemma acquire_release_round_trip_witness :
  Release (snd (TryAcquire (NewConnectionManager 4))) = NewConnectionManager 4.
Proof.
  refine (proj2 (acquire_release_round_trip (NewConnectionManager 4) _ _)).
  - vm_compute. repeat split; discriminate.
  - vm_compute. reflexivity.
Defined.
End CapacityFacts.

(** ** Interleavings: the atomic add loses no update *)

Section RaceInvariant.
Import Types Race.
Local Open Scope Z_scope.

Lemma slots_cons p gs :
  slots (p :: gs) = (if got_slot p then 1 else 0) + slots gs.
Proof.
  unfold slots. cbn [List.filter]. destruct (got_slot p); cbn [length]; lia.
Qed.

Lemma slots_bound gs : 0 <= slots gs <= Z.of_nat (length gs).
Proof.
  induction gs as [| p gs IH]; [unfold slots; cbn; lia |].
  rewrite slots_cons. cbn [length]. destruct (got_slot p); lia.
Qed.

Lemma slots_insert gs : forall (i : nat) p p',
  gs !! i = Some p ->
  slots (<[i := p']> gs) =
    slots gs - (if got_slot p then 1 else 0) + (if got_slot p' then 1 else 0).
Proof.
  induction gs as [| q gs IH]; intros i p p' Hi; [discriminate |].
  destruct i as [| i]; cbn in Hi.
  - injection Hi as ->. cbn [insert list_insert]. rewrite !slots_cons. lia.
  - change (<[S i := p']> (q :: gs)) with (q :: <[i := p']> gs).
    rewrite !slots_cons, (IH i p p' Hi). lia.
Qed.

Lemma slots_room gs : forall (i : nat) p,
  gs !! i = Some p -> got_slot p = false -> slots gs < Z.of_nat (length gs).
Proof.
  induction gs as [| q gs IH]; intros i p Hi Hp; [discriminate |].
  rewrite slots_cons. cbn [length]. destruct i as [| i]; cbn in Hi.
  - injection Hi as ->. rewrite Hp. pose proof (slots_bound gs). lia.
  - specialize (IH i p Hi Hp). destruct (got_slot q); lia.
Qed.

Lemma counted_step m n c i :
  Z.of_nat n <= Int64.max_int64 -> counted m n c -> counted m n (step c i).
Proof.
  intros Hn (Hm & Hlen & Hact). unfold step.
  destruct (goroutines c !! i) as [p |] eqn:Hi; [| repeat split; assumption].
  destruct p as [| current | ok]; cbn [step_pc].
  - repeat split; cbn [shared goroutines]; [assumption | by rewrite length_insert |].
    rewrite (slots_insert _ _ _ _ Hi). cbn. lia.
  - destruct (current >=? maxStreams (shared c)).
    + repeat split; cbn [shared goroutines];
        [assumption | by rewrite length_insert |].
      rewrite (slots_insert _ _ _ _ Hi). cbn. lia.
    + pose proof (slots_room _ _ _ Hi eq_refl) as Hroom.
      pose proof (slots_bound (goroutines c)) as Hb.
      repeat split; cbn [shared goroutines fst atomic_AddInt64 maxStreams activeStreams];
        [assumption | by rewrite length_insert |].
      rewrite (slots_insert _ _ _ _ Hi). cbn [got_slot].
      rewrite wrap_id by int64_bounds. lia.
  - repeat split; cbn [shared goroutines];
      [assumption | by rewrite length_insert |].
    rewrite (slots_insert _ _ _ _ Hi). destruct ok; cbn; lia.
Qed.

Lemma counted_run m n schedule : forall c,
  Z.of_nat n <= Int64.max_int64 -> counted m n c -> counted m n (run c schedule).
Proof.
  induction schedule as [| i schedule IH]; intros c Hn Hc; [exact Hc |].
  cbn [run fold_left]. apply IH; [exact Hn |]. by apply counted_step.
Qed.

(** X3 *)
(** Whatever the capacity, the number of goroutines calling [TryAcquire]
    on a fresh manager and the order of their atomic steps, the count is
    at every moment the number of calls that have returned true: no
    increment is lost, none is made twice, and the count never exceeds
    the number of callers. *)
Theorem interleaving_counts_admissions (m : Z) (n : nat) (schedule : list nat)
    (Hn : Z.of_nat n <= Int64.max_int64) :
  let c := run (start m n) schedule in
  GetActiveCount (shared c) = Z.of_nat (admitted c)
  /\ 0 <= GetActiveCount (shared c) <= Z.of_nat n
  /\ maxStreams (shared c) = m.
Proof.
  intros c.
  assert (H0 : counted m n (start m n)).
  { unfold counted, start. cbn [shared goroutines NewConnectionManager
                                 maxStreams activeStreams].
    rewrite length_replicate. repeat split.
    unfold slots. induction n as [| n IH]; [reflexivity |].
    cbn [replicate List.filter got_slot]. apply IH. lia. }
  destruct (counted_run m n schedule _ Hn H0) as (Hm & Hlen & Hact).
  fold c in Hm, Hlen, Hact.
  pose proof (slots_bound (goroutines c)) as Hb. rewrite Hlen in Hb.
  unfold GetActiveCount, atomic_LoadInt64, admitted. unfold slots in *.
  repeat split; lia.
Qed.

Lemma interleaving_counts_admissions_witness :
  GetActiveCount (shared (run (start 1 3) [0; 1; 2; 2; 0; 1]%nat)) = 3.
Proof.
  refine (proj1 (interleaving_counts_admissions 1 3 [0; 1; 2; 2; 0; 1]%nat _)).
  vm_compute. discriminate.
Defined.
End RaceInvariant.

(** ** Calls that do not overlap *)

Section SerialCalls.
Import Types Race.
Local Open Scope Z_scope.

Lemma step_twice_from_Entry c (i : nat) :
  goroutines c !! i = Some Entry ->
  step (step c i) i =
    {| shared := snd (TryAcquire (shared c));
       goroutines := <[i := Returned (fst (TryAcquire (shared c)))]> (goroutines c) |}.
Proof.
  intros Hi. pose proof (lookup_lt_Some _ _ _ Hi) as Hlt.
  unfold step at 2. rewrite Hi. cbn [step_pc].
  unfold step. cbn [goroutines shared].
  rewrite list_lookup_insert_eq by exact Hlt. cbn [step_pc].
  unfold TryAcquire, atomic_LoadInt64.
  destruct (activeStreams (shared c) >=? maxStreams (shared c));
    cbn [fst snd]; rewrite list_insert_insert_eq; reflexivity.
Qed.

Lemma one_at_a_time_keeps_capacity m order : forall c,
  0 <= m <= Int64.max_int64 ->
  maxStreams (shared c) = m -> 0 <= activeStreams (shared c) <= m ->
  NoDup order ->
  (forall i, i ∈ order -> goroutines c !! i = Some Entry) ->
  let c' := run c (one_at_a_time order) in
  maxStreams (shared c') = m /\ 0 <= activeStreams (shared c') <= m.
Proof.
  induction order as [| i order IH]; intros c Hcap Hm Hact Hnd Hentry.
  - cbn. auto.
  - cbn [one_at_a_time run fold_left].
    change (fold_left step (one_at_a_time order) (step (step c i) i))
      with (run (step (step c i) i) (one_at_a_time order)).
    rewrite step_twice_from_Entry by (apply Hentry; left).
    apply NoDup_cons in Hnd as [Hni Hnd].
    apply IH; cbn [shared goroutines]; try assumption.
    + rewrite TryAcquire_max. exact Hm.
    + destruct (Z_lt_ge_dec (activeStreams (shared c)) (maxStreams (shared c)))
        as [Hlt | Hge].
      * rewrite TryAcquire_free; [cbn; lia | split; int64_bounds | exact Hlt].
      * rewrite TryAcquire_full by exact Hge. cbn. lia.
    + intros j Hj. rewrite list_lookup_insert_ne.
      * apply Hentry. by right.
      * intros ->. contradiction.
Qed.

(** X4 *)
(** When the calls do not overlap, each goroutine taking its load and
    its add before the next one starts, the count stays within the
    capacity whatever the order and the number of callers: the excess of
    the interleaved case needs two calls in flight at once. *)
Theorem calls_one_at_a_time_respect_capacity (m : Z) (n : nat) (order : list nat)
    (Hcap : 0 <= m <= Int64.max_int64)
    (Hnd : NoDup order)
    (Hin : forall i, i ∈ order -> (i < n)%nat) :
  let c := run (start m n) (one_at_a_time order) in
  0 <= GetActiveCount (shared c) <= m /\ maxStreams (shared c) = m.
Proof.
  intros c.
  destruct (one_at_a_time_keeps_capacity m order (start m n) Hcap) as [Hm Hact];
    try assumption.
  - reflexivity.
  - cbn. lia.
  - intros i Hi. cbn [start goroutines].
    apply lookup_replicate_2. auto.
  - fold c in Hm, Hact. unfold GetActiveCount, atomic_LoadInt64. auto.
Qed.

Lemma calls_one_at_a_time_respect_capacity_witness :
  0 <= GetActiveCount (shared (run (start 1 3) (one_at_a_time [2; 0; 1]%nat))) <= 1.
Proof.
  refine (proj1 (calls_one_at_a_time_respect_capacity 1 3 [2; 0; 1]%nat _ _ _)).
  - vm_compute. split; discriminate.
  - apply (bool_decide_unpack (NoDup [2; 0; 1]%nat)). vm_compute. exact I.
  - intros i Hi.
    apply elem_of_cons in Hi as [-> | Hi]; [lia |].
    apply elem_of_cons in Hi as [-> | Hi]; [lia |].
    apply elem_of_cons in Hi as [-> | Hi]; [lia |].
    inversion Hi.
Defined.
End SerialCalls.

(** ** The font cache across loads *)

Section FontCacheExtras.
Import Types Render FontList.

Variable File : Type.
Variable os_Stat : string -> stat_result.
Variable os_Open : string -> option File.
Variable filepath_Join : string -> string -> string.

Local Abbreviation validates := (validates File os_Stat os_Open filepath_Join).
Local Abbreviation LoadFonts := (LoadFonts File os_Stat os_Open filepath_Join).
Local Abbreviation font_entry := (font_entry filepath_Join).

(** Every lookup after a load, from any cache. *)
Lemma LoadFonts_lookup fc cfg name :
  fonts (fst (fst (LoadFonts fc cfg))) !! name =
    if bool_decide (name ∈ Allowed cfg) && validates (Path cfg) name
    then Some (font_entry (Path cfg) name)
    else fonts fc !! name.
Proof.
  destruct (LoadFonts_shape File os_Stat os_Open filepath_Join fc cfg)
    as (m & n & lg & Hfold & ->).
  pose proof (load_loop File os_Stat os_Open filepath_Join
                (Path cfg) (Allowed cfg) (fonts fc) 0%Z []) as Hloop.
  rewrite Hfold in Hloop. destruct Hloop as (Hin & Hout & _). cbn [fst fonts].
  destruct (bool_decide_reflect (name ∈ Allowed cfg)) as [Hmem | Hmem];
    cbn [andb].
  - destruct (validates (Path cfg) name) eqn:Hv; [by apply Hin |].
    apply Hout. intros [_ ?]. congruence.
  - apply Hout. tauto.
Qed.

Lemma LoadFonts_error fc cfg : snd (fst (LoadFonts fc cfg)) = None.
Proof.
  destruct (LoadFonts_shape File os_Stat os_Open filepath_Join fc cfg)
    as (m & n & lg & _ & ->). reflexivity.
Qed.

(** A font stored by [LoadFonts] could be opened when it was loaded. *)
Lemma validates_Open dir name :
  validates dir name = true -> is_Some (os_Open (fontPath (font_entry dir name))).
Proof.
  unfold Render.validates. intros H.
  destruct (ValidateFont File os_Stat os_Open _) eqn:E; [discriminate |].
  apply (ValidateFont_ok File os_Stat os_Open) in E. tauto.
Qed.
End FontCacheExtras.

Section FontCacheExtraClaims.
Import Types Render FontList.

(** X5 *)
(** [LoadFonts] on a cache that already holds fonts never removes one
    and never fails: a name that is not re-registered by this load keeps
    its entry unchanged, and a name that is allowed and validates now
    maps to the entry for its path under the configured directory. *)
Theorem LoadFonts_keeps_existing :
  forall (File : Type) (os_Stat : string -> stat_result)
         (os_Open : string -> option File)
         (filepath_Join : string -> string -> string)
         (fc : FontCache) (cfg : FontConfig),
    let ok := validates File os_Stat os_Open filepath_Join (Path cfg) in
    let after := fst (fst (LoadFonts File os_Stat os_Open filepath_Join fc cfg)) in
    snd (fst (LoadFonts File os_Stat os_Open filepath_Join fc cfg)) = None
    /\ (forall name, is_Some (fonts fc !! name) -> is_Some (fonts after !! name))
    /\ (forall name, ~ (name ∈ Allowed cfg /\ ok name = true) ->
          fonts after !! name = fonts fc !! name)
    /\ (forall name, name ∈ Allowed cfg -> ok name = true ->
          fonts after !! name
          = Some {| Name := name;
                    fontPath := filepath_Join (Path cfg) (name +:+ ".flf") |}).
Proof.
  intros File os_Stat os_Open filepath_Join fc cfg ok after. subst ok after.
  split; [apply LoadFonts_error |].
  split; [| split]; intros name.
  - intros Hsome. rewrite LoadFonts_lookup.
    destruct (_ && _); [by eexists | exact Hsome].
  - intros Hnot. rewrite LoadFonts_lookup.
    destruct (bool_decide_reflect (name ∈ Allowed cfg)); cbn [andb];
      [| reflexivity].
    destruct (validates _ _ _ _ _ name) eqn:Hv; [tauto | reflexivity].
  - intros Hmem Hv. rewrite LoadFonts_lookup.
    rewrite (bool_decide_eq_true_2 _ Hmem), Hv. reflexivity.
Qed.

Lemma LoadFonts_keeps_existing_witness :
  fonts (fst (fst (LoadFonts string demo_Stat demo_Open demo_Join demo_cache
                     {| Default := "standard"; Path := "elsewhere";
                        Allowed := ["doom"; "big"]%string |})))
    !! "doom"%string
  = fonts demo_cache !! "doom"%string.
Proof.
  refine (proj1 (proj2 (proj2
            (LoadFonts_keeps_existing string demo_Stat demo_Open demo_Join
               demo_cache
               {| Default := "standard"; Path := "elsewhere";
                  Allowed := ["doom"; "big"]%string |}))) "doom"%string _).
  intros [_ Hv]. vm_compute in Hv. discriminate Hv.
Defined.

(** X6 *)
(** Loading the same configuration a second time, with the disk
    unchanged, leaves the cache as the first load left it. *)
Theorem LoadFonts_idempotent :
  forall (File : Type) (os_Stat : string -> stat_result)
         (os_Open : string -> option File)
         (filepath_Join : string -> string -> string)
         (fc : FontCache) (cfg : FontConfig),
    let once := fst (fst (LoadFonts File os_Stat os_Open filepath_Join fc cfg)) in
    fst (fst (LoadFonts File os_Stat os_Open filepath_Join once cfg)) = once.
Proof.
  intros File os_Stat os_Open filepath_Join fc cfg once.
  assert (Hmaps : fonts (fst (fst (LoadFonts File os_Stat os_Open filepath_Join
                                     once cfg))) = fonts once).
  { apply map_eq. intros name. rewrite LoadFonts_lookup. subst once.
    rewrite LoadFonts_lookup. destruct (_ && _); reflexivity. }
  destruct (fst (fst (LoadFonts File os_Stat os_Open filepath_Join once cfg))),
    once. cbn in Hmaps. congruence.
Qed.

(** X7 *)
(** [ListFonts] returns the names of the cache, each once, in ascending
    bytewise order, and as many as the cache has entries; the result
    does not depend on the order in which the map is traversed. *)
Theorem ListFonts_sorted_names (fc : FontCache) :
  Sorted String.le (ListFonts fc)
  /\ NoDup (ListFonts fc)
  /\ (forall name, name ∈ ListFonts fc <-> is_Some (fonts fc !! name))
  /\ length (ListFonts fc) = size (fonts fc)
  /\ (forall iteration,
        iteration ≡ₚ map fst (map_to_list (fonts fc)) ->
        ListFonts_ranging iteration = ListFonts fc).
Proof.
  unfold ListFonts, ListFonts_ranging, sort_Strings.
  set (keys := map fst (map_to_list (fonts fc))).
  assert (Hperm : merge_sort String.le keys ≡ₚ keys)
    by apply merge_sort_Permutation.
  assert (Hnd : NoDup keys) by apply NoDup_fst_map_to_list.
  split; [apply Sorted_merge_sort; apply _ |].
  split; [by rewrite Hperm |].
  split; [| split].
  - intros name. rewrite Hperm. subst keys.
    change (map fst (map_to_list (fonts fc))) with ((map_to_list (fonts fc)).*1).
    rewrite list_elem_of_fmap. split.
    + intros [[k f] [-> Hkf]]. apply elem_of_map_to_list in Hkf. cbn. eauto.
    + intros [f Hf]. exists (name, f). split; [reflexivity |].
      by apply elem_of_map_to_list.
  - rewrite Hperm. subst keys. rewrite length_map.
    apply length_map_to_list.
  - intros iteration Hiter.
    apply (Sorted_unique String.le).
    + apply Sorted_merge_sort; apply _.
    + apply Sorted_merge_sort; apply _.
    + by rewrite !merge_sort_Permutation.
Qed.

Lemma ListFonts_sorted_names_witness :
  ListFonts_ranging ["standard"; "doom"]%string = ListFonts demo_cache
  /\ ListFonts_ranging ["doom"; "standard"]%string = ListFonts demo_cache.
Proof.
  destruct (ListFonts_sorted_names demo_cache) as (_ & _ & _ & _ & Hany).
  split; apply Hany; vm_compute; first [reflexivity | apply perm_swap].
Defined.

Example ListFonts_demo : ListFonts demo_cache = ["doom"; "standard"]%string.
Proof. vm_compute. reflexivity. Qed.
End FontCacheExtraClaims.

(** ** Rendering from a freshly loaded cache *)

Section RenderAfterLoad.
Import Types Render.

Variable File : Type.
Variable os_Stat : string -> stat_result.
Variable os_Open : string -> option File.
Variable filepath_Join : string -> string -> string.
Variable figure_String : string -> File -> string.

Local Abbreviation validates := (validates File os_Stat os_Open filepath_Join).
Local Abbreviation LoadFonts := (LoadFonts File os_Stat os_Open filepath_Join).
Local Abbreviation Font_Render := (Font_Render File os_Open figure_String).
Local Abbreviation GenerateASCII := (GenerateASCII File os_Open figure_String).

(** Every entry of a cache filled by one load on a fresh cache points at
    a file that opens. *)
Lemma loaded_entry_opens cfg name font :
  fonts (fst (fst (LoadFonts NewFontCache cfg))) !! name = Some font ->
  is_Some (os_Open (fontPath font)).
Proof.
  rewrite LoadFonts_lookup. cbn [fonts NewFontCache].
  destruct (bool_decide _); cbn [andb]; [| by rewrite lookup_empty].
  destruct (validates (Path cfg) name) eqn:Hv; [| by rewrite lookup_empty].
  intros [= <-]. by apply (validates_Open File os_Stat os_Open filepath_Join).
Qed.

Lemma resolved_font_is_entry (fc : FontCache) name defaultName font :
  GetFontOrDefault fc name defaultName = Some font ->
  fonts fc !! name = Some font \/ fonts fc !! defaultName = Some font.
Proof.
  unfold GetFontOrDefault.
  destruct (fonts fc !! name); [intros [= ->]; by left |].
  destruct (fonts fc !! defaultName); [intros [= ->]; by right | discriminate].
Qed.

Lemma GenerateASCII_after_load cfg text opts :
  let cache := fst (fst (LoadFonts NewFontCache cfg)) in
  let r := GenerateASCII text opts (Some cache) in
  (r = (""%string, None) /\ text = ""%string)
  \/ (r = (""%string, Some ErrNoFontsLoaded)
      /\ text <> ""%string
      /\ GetFontOrDefault cache (Types.Font opts) DefaultFont = None)
  \/ (exists font file,
        text <> ""%string
        /\ GetFontOrDefault cache (Types.Font opts) DefaultFont = Some font
        /\ os_Open (fontPath font) = Some file
        /\ r = (figure_String text file, None)).
Proof.
  intros cache r. subst r. unfold Render.GenerateASCII.
  destruct (decide (text = ""%string)) as [-> | Htext]; [by left |]. right.
  destruct (GetFontOrDefault cache (Types.Font opts) DefaultFont) as [font |] eqn:E;
    [right | by left].
  assert (Hopen : is_Some (os_Open (fontPath font))).
  { destruct (resolved_font_is_entry _ _ _ _ E) as [H | H];
      exact (loaded_entry_opens cfg _ font H). }
  destruct Hopen as [file Hfile]. exists font, file.
  unfold Render.Font_Render. rewrite Hfile. auto.
Qed.
End RenderAfterLoad.

Section RenderAfterLoadClaims.
Import Types Render.

(** X8 *)
(** On a cache filled by [LoadFonts] from a fresh one, with the disk
    unchanged since, [GenerateASCII] never fails in the rendering step:
    it returns no error, or "no fonts loaded" with empty output.  When
    the default font ["standard"] is among the allowed names and its
    file validates, it returns no error for every text and every
    requested font. *)
Theorem render_after_load_never_fails_to_open :
  forall (File : Type) (os_Stat : string -> stat_result)
         (os_Open : string -> option File)
         (filepath_Join : string -> string -> string)
         (figure_String : string -> File -> string)
         (cfg : FontConfig) (text : string) (opts : RenderOptions),
    let cache :=
      fst (fst (LoadFonts File os_Stat os_Open filepath_Join NewFontCache cfg)) in
    let r := GenerateASCII File os_Open figure_String text opts (Some cache) in
    (snd r = None \/ r = (""%string, Some ErrNoFontsLoaded))
    /\ (DefaultFont ∈ Allowed cfg ->
        validates File os_Stat os_Open filepath_Join (Path cfg) DefaultFont = true ->
        snd r = None).
Proof.
  intros File os_Stat os_Open filepath_Join figure_String cfg text opts cache r.
  pose proof (GenerateASCII_after_load File os_Stat os_Open filepath_Join
                figure_String cfg text opts) as H.
  cbv zeta in H. fold cache in H. fold r in H.
  split.
  - destruct H as [[-> _] | [[-> _] | (font & file & _ & _ & _ & ->)]];
      cbn; auto.
  - intros Hmem Hv.
    destruct H as [[-> _] | [[_ [_ Hnone]] | (font & file & _ & _ & _ & ->)]];
      [reflexivity | | reflexivity].
    exfalso. unfold GetFontOrDefault in Hnone. subst cache.
    rewrite !LoadFonts_lookup in Hnone.
    rewrite (bool_decide_eq_true_2 _ Hmem), Hv in Hnone. cbn [andb] in Hnone.
    destruct (_ && _) in Hnone; discriminate.
Qed.

Lemma render_after_load_never_fails_to_open_witness :
  snd (GenerateASCII string demo_Open demo_figure "HELLO"
         (demo_opts "bloody") (Some demo_cache)) = None.
Proof.
  refine (proj2 (render_after_load_never_fails_to_open string demo_Stat demo_Open
                   demo_Join demo_figure demo_config "HELLO" (demo_opts "bloody"))
                _ _).
  - apply (bool_decide_unpack (DefaultFont ∈ Allowed demo_config)).
    vm_compute. exact I.
  - vm_compute. reflexivity.
Defined.
End RenderAfterLoadClaims.

(** ** Frame cadence and colours *)

Section CadenceFacts.
Import Types Handlers Colors.
Local Open Scope Z_scope.

Lemma calculateFrameDelay_clamped speed :
  calculateFrameDelay speed =
    (220 - 20 * Z.max MinSpeed (Z.min MaxSpeed speed)) * Millisecond.
Proof.
  unfold calculateFrameDelay, MinSpeed, MaxSpeed, Millisecond.
  destruct (Z.ltb_spec speed 1);
    [destruct (Z.gtb_spec 1 10); [lia |]
    |destruct (Z.gtb_spec speed 10)];
    rewrite wrap_id by int64_bounds; lia.
Qed.

(** X9 *)
(** The frame delay is always between 20 ms and 200 ms: a speed below 1
    (0, or a negative one) behaves as speed 1, a speed above 10 as speed
    10, and in between the delay is (220 - 20 * speed) ms, so a higher
    speed never gives a longer delay. *)
Theorem calculateFrameDelay_range :
  (forall speed,
     20 * Millisecond <= calculateFrameDelay speed <= 200 * Millisecond)
  /\ (forall speed, speed <= MinSpeed ->
        calculateFrameDelay speed = 200 * Millisecond)
  /\ (forall speed, MaxSpeed <= speed ->
        calculateFrameDelay speed = 20 * Millisecond)
  /\ (forall speed, MinSpeed <= speed <= MaxSpeed ->
        calculateFrameDelay speed = (220 - 20 * speed) * Millisecond)
  /\ (forall s1 s2, s1 <= s2 ->
        calculateFrameDelay s2 <= calculateFrameDelay s1).
Proof.
  repeat split; intros; rewrite ?calculateFrameDelay_clamped;
    unfold MinSpeed, MaxSpeed, Millisecond in *; lia.
Qed.

Lemma calculateFrameDelay_range_witness :
  calculateFrameDelay 0 = 200 * Millisecond
  /\ calculateFrameDelay 999 = 20 * Millisecond
  /\ calculateFrameDelay 7 = (220 - 20 * 7) * Millisecond
  /\ calculateFrameDelay 8 <= calculateFrameDelay 3.
Proof.
  destruct calculateFrameDelay_range as (_ & Hlow & Hhigh & Hmid & Hanti).
  split; [apply Hlow; vm_compute; discriminate |].
  split; [apply Hhigh; vm_compute; discriminate |].
  split; [apply Hmid; vm_compute; split; discriminate |].
  apply Hanti. vm_compute. discriminate.
Defined.

Lemma at_index_in colors position :
  0 <= position < Z.of_nat (length colors) ->
  exists c, at_index colors position = Some c /\ c ∈ colors.
Proof.
  intros [Hlo Hhi]. unfold at_index.
  destruct (Z.ltb_spec position 0); [lia |].
  destruct (lookup_lt_is_Some_2 colors (Z.to_nat position)) as [c Hc]; [lia |].
  exists c. split; [exact Hc |]. by eapply list_elem_of_lookup_2.
Qed.

Lemma rem_index x n : 0 <= x -> 0 < n -> 0 <= Z.rem x n < n.
Proof. intros Hx Hn. apply Z.rem_bound_pos; lia. Qed.

Ltac unwrap_innermost :=
  repeat match goal with
         | |- context [Int64.wrap ?x] =>
             lazymatch x with
             | context [Int64.wrap _] => fail
             | _ => rewrite (wrap_id x) by int64_bounds
             end
         end.

Lemma palette_range scheme frame line col :
  small frame -> small line -> small col ->
  exists c, getAnimatedColor scheme frame line col = Some c /\ 17 <= c <= 226.
Proof.
  unfold small. intros Hf Hl Hc.
  assert (Hpal : forall colors position,
            Forall (fun c => 17 <= c <= 226) colors ->
            0 <= position < Z.of_nat (length colors) ->
            exists c, at_index colors position = Some c /\ 17 <= c <= 226).
  { intros colors position Hall Hpos.
    destruct (at_index_in colors position Hpos) as (c & Hc1 & Hc2).
    exists c. split; [exact Hc1 |].
    rewrite Forall_forall in Hall. by apply Hall. }
  assert (Hr : Forall (fun c => 17 <= c <= 226) rainbow)
    by (unfold rainbow; repeat constructor; lia).
  assert (Hfi : Forall (fun c => 17 <= c <= 226) fire)
    by (unfold fire; repeat constructor; lia).
  assert (Ho : Forall (fun c => 17 <= c <= 226) ocean)
    by (unfold ocean; repeat constructor; lia).
  assert (Hrb : exists c, rainbow_color frame col = Some c /\ 17 <= c <= 226).
  { unfold rainbow_color, add64, mul64. unwrap_innermost.
    apply Hpal; [exact Hr |]. apply (rem_index _ 16); lia. }
  unfold getAnimatedColor.
  repeat case_decide; try exact Hrb; unfold add64, mul64; unwrap_innermost.
  - apply Hpal; [exact Hfi |]. apply (rem_index _ 10); lia.
  - apply Hpal; [exact Ho |]. apply (rem_index _ 12); lia.
  - destruct (_ =? 0); eexists; (split; [reflexivity | lia]).
Qed.

(** X10 *)
(** For a frame counter, line and column that are non-negative (and far
    from overflow) [getAnimatedColor] never indexes outside its palette
    and returns a colour between 17 and 226, whatever the scheme name.
    A name other than the four known schemes gives exactly the rainbow
    colour, and the rainbow repeats every 16 frames. *)
Theorem getAnimatedColor_palette :
  (forall scheme frame line col,
     small frame -> small line -> small col ->
     exists c, getAnimatedColor scheme frame line col = Some c /\ 17 <= c <= 226)
  /\ (forall scheme frame line col,
        scheme ∉ ["rainbow"; "fire"; "ocean"; "matrix"]%string ->
        getAnimatedColor scheme frame line col
        = getAnimatedColor "rainbow" frame line col)
  /\ (forall frame line col,
        small frame -> small col ->
        getAnimatedColor "rainbow" (frame + 16) line col
        = getAnimatedColor "rainbow" frame line col).
Proof.
  split; [exact palette_range | split].
  - intros scheme frame line col Hnot. unfold getAnimatedColor.
    repeat case_decide; try reflexivity; subst; exfalso; apply Hnot;
      set_solver.
  - unfold small. intros frame line col Hf Hc.
    unfold getAnimatedColor. cbn [decide]. repeat case_decide; try congruence.
    unfold rainbow_color, add64, mul64. unwrap_innermost.
    change (len rainbow) with 16.
    rewrite !Z.rem_mod_nonneg by lia.
    replace (frame + 16 + col * 2) with (frame + col * 2 + 1 * 16) by lia.
    rewrite Z_mod_plus_full. reflexivity.
Qed.

Lemma getAnimatedColor_palette_witness :
  (exists c, getAnimatedColor "fire" 7 2 5 = Some c /\ 17 <= c <= 226)
  /\ getAnimatedColor "plaid" 7 2 5 = getAnimatedColor "rainbow" 7 2 5.
Proof.
  destruct getAnimatedColor_palette as (Hrange & Hdefault & _).
  split.
  - apply Hrange; vm_compute; split; discriminate.
  - apply Hdefault. intros Hin.
    apply (bool_decide_pack _) in Hin. vm_compute in Hin. exact Hin.
Defined.

(** A negative sum indexes below the palette: the call panics. *)
Example getAnimatedColor_negative_frame :
  getAnimatedColor "rainbow" (-1) 0 0 = None.
Proof. reflexivity. Qed.
End CadenceFacts.

(** ** Request parsing and validation *)

Section OptionFacts.
Import Types Handlers Text Observe.
Local Open Scope Z_scope.

(** X11 *)
(** [firstOf] returns the first non-empty argument: everything before
    it is empty; it returns the empty string exactly when all arguments
    are empty (or there is none). *)
Theorem firstOf_first_non_empty (values : list string) :
  (firstOf values = EmptyString <-> Forall (fun v => v = EmptyString) values)
  /\ (firstOf values <> EmptyString ->
        exists before after,
          values = before ++ firstOf values :: after
          /\ Forall (fun v => v = EmptyString) before).
Proof.
  induction values as [| v rest [IHe IHn]].
  - split; [split; [constructor | reflexivity] | intros H; contradiction H; reflexivity].
  - cbn [firstOf]. destruct (decide (v = EmptyString)) as [-> | Hv].
    + split.
      * rewrite IHe. split; [by constructor | by inversion 1].
      * intros H. destruct (IHn H) as (before & after & Heq & Hall).
        exists (EmptyString :: before), after.
        split; [cbn; congruence | by constructor].
    + split.
      * split; [contradiction | inversion 1; contradiction].
      * intros _. exists [], rest. split; [reflexivity | constructor].
Qed.

Lemma firstOf_first_non_empty_witness :
  exists before after,
    ["" ; "slant"; "doom"]%string
    = before ++ firstOf ["" ; "slant"; "doom"]%string :: after
    /\ Forall (fun v => v = EmptyString) before.
Proof.
  apply (proj2 (firstOf_first_non_empty ["" ; "slant"; "doom"]%string)).
  vm_compute. discriminate.
Defined.

Lemma validateOptions_accepts opts :
  validateOptions opts = None <->
  (Font opts = EmptyString \/ Font opts ∈ validFonts)
  /\ 0 <= Speed opts <= MaxSpeed
  /\ (Align opts = EmptyString \/ Align opts ∈ validAligns).
Proof.
  unfold validateOptions.
  destruct (bool_decide_reflect (Font opts = EmptyString)) as [Hf1 | Hf1];
    destruct (bool_decide_reflect (Font opts ∈ validFonts)) as [Hf2 | Hf2];
    cbn [negb andb]; try (split; [discriminate | tauto]);
    (destruct (Z.ltb_spec (Speed opts) 0);
     [cbn [orb]; split; [discriminate | lia] |];
     destruct (Z.gtb_spec (Speed opts) MaxSpeed);
     [cbn [orb]; split; [discriminate | lia] |]; cbn [orb];
     destruct (bool_decide_reflect (Align opts = EmptyString)) as [Ha1 | Ha1];
     destruct (bool_decide_reflect (Align opts ∈ validAligns)) as [Ha2 | Ha2];
     cbn [negb andb]; try (split; [discriminate | tauto]);
     (split; [intros _ | reflexivity]; repeat split; auto; lia)).
Qed.

(** X12 *)
(** [validateOptions] accepts exactly the options whose font is empty or
    one of the eight known fonts, whose speed is between 0 and 10 (0
    passes, although the message says 1 to 10), and whose alignment is
    empty or left, center or right.  A bad font is reported before a bad
    speed, a bad speed before a bad alignment.  The timeout is not
    examined: changing it never changes the verdict. *)
Theorem validateOptions_verdict (opts : RenderOptions) :
  (validateOptions opts = None <->
     (Font opts = EmptyString \/ Font opts ∈ validFonts)
     /\ 0 <= Speed opts <= MaxSpeed
     /\ (Align opts = EmptyString \/ Align opts ∈ validAligns))
  /\ (Font opts <> EmptyString -> Font opts ∉ validFonts ->
        validateOptions opts = Some (InvalidFont (Font opts)))
  /\ (validateOptions opts = Some SpeedOutOfRange ->
        (Font opts = EmptyString \/ Font opts ∈ validFonts)
        /\ (Speed opts < 0 \/ MaxSpeed < Speed opts))
  /\ (forall t, validateOptions (set_Timeout opts t) = validateOptions opts).
Proof.
  split; [apply validateOptions_accepts |].
  split; [| split; [| reflexivity]].
  - intros Hf1 Hf2. unfold validateOptions.
    rewrite (bool_decide_eq_false_2 _ Hf1), (bool_decide_eq_false_2 _ Hf2).
    reflexivity.
  - unfold validateOptions.
    destruct (bool_decide_reflect (Font opts = EmptyString)) as [Hf1 | Hf1];
      destruct (bool_decide_reflect (Font opts ∈ validFonts)) as [Hf2 | Hf2];
      cbn [negb andb]; try discriminate;
      (destruct (Z.ltb_spec (Speed opts) 0);
       [cbn [orb]; intros _; split; [tauto | lia] |];
       destruct (Z.gtb_spec (Speed opts) MaxSpeed);
       [cbn [orb]; intros _; split; [tauto | lia] |]; cbn [orb];
       destruct (negb _ && negb _); discriminate).
Qed.

Lemma validateOptions_verdict_witness :
  validateOptions (parsed (demo_request "HI" 0)) = None
  /\ validateOptions (Render.demo_opts "comic")
     = Some (InvalidFont (Font (Render.demo_opts "comic"))).
Proof.
  split.
  - apply (proj1 (validateOptions_verdict (parsed (demo_request "HI" 0)))).
    split; [right; apply (bool_decide_unpack _); vm_compute; exact I |].
    split; [vm_compute; split; discriminate |].
    right. apply (bool_decide_unpack _). vm_compute. exact I.
  - apply (proj1 (proj2 (validateOptions_verdict (Render.demo_opts "comic")))).
    + vm_compute. discriminate.
    + intros H. apply (bool_decide_pack _) in H. vm_compute in H. exact H.
Defined.

(** X13 *)
(** The options [parseOptions] builds never have an empty font or an
    empty alignment: the short parameter wins over the long one, and
    when both are absent the font is "doom" and the alignment "left".
    So on parsed options [validateOptions] accepts exactly when the font
    is a known font, the speed is between 0 and 10 and the alignment is
    a known alignment. *)
Theorem parseOptions_defaults (Query : string -> string) (QueryInt : string -> Z -> Z) :
  let opts := parseOptions Query QueryInt in
  Font opts <> EmptyString
  /\ Align opts <> EmptyString
  /\ (Query "f" <> EmptyString -> Font opts = Query "f")
  /\ (Query "f" = EmptyString -> Query "font" <> EmptyString ->
        Font opts = Query "font")
  /\ (Query "f" = EmptyString -> Query "font" = EmptyString ->
        Font opts = "doom"%string)
  /\ (Query "a" = EmptyString -> Query "align" = EmptyString ->
        Align opts = "left"%string)
  /\ (validateOptions opts = None <->
        Font opts ∈ validFonts
        /\ 0 <= Speed opts <= MaxSpeed
        /\ Align opts ∈ validAligns).
Proof.
  intros opts.
  assert (Hfont : Font opts <> EmptyString).
  { subst opts. cbn [parseOptions Font firstOf]. repeat case_decide; congruence. }
  assert (Halign : Align opts <> EmptyString).
  { subst opts. cbn [parseOptions Align firstOf]. repeat case_decide; congruence. }
  split; [exact Hfont |]. split; [exact Halign |].
  split; [| split; [| split; [| split]]].
  - intros H. subst opts. cbn [parseOptions Font firstOf].
    case_decide; [contradiction | reflexivity].
  - intros H1 H2. subst opts. cbn [parseOptions Font firstOf].
    repeat case_decide; try contradiction; reflexivity.
  - intros H1 H2. subst opts. cbn [parseOptions Font firstOf].
    repeat case_decide; try contradiction; try discriminate; reflexivity.
  - intros H1 H2. subst opts. cbn [parseOptions Align firstOf].
    repeat case_decide; try contradiction; try discriminate; reflexivity.
  - rewrite validateOptions_accepts. tauto.
Qed.

Lemma parseOptions_defaults_witness :
  Font (parseOptions (fun key => if bool_decide (key = "f"%string)
                                 then "slant"%string else EmptyString)
                     (fun _ d => d))
  = "slant"%string.
Proof.
  refine (proj1 (proj2 (proj2 (parseOptions_defaults
            (fun key => if bool_decide (key = "f"%string)
                        then "slant"%string else EmptyString)
            (fun _ d => d)))) _).
  vm_compute. discriminate.
Defined.
End OptionFacts.

(** ** Input sanitisation *)

Section CleanFacts.
Import Handlers Observe.

Lemma keep_printable_all s : all_bytes keep_byte (keep_printable s) = true.
Proof.
  induction s as [| a s IH]; [reflexivity |].
  cbn [keep_printable]. destruct (keep_byte a) eqn:Ha; [| exact IH].
  cbn [all_bytes]. by rewrite Ha, IH.
Qed.

Lemma keep_printable_fixed s :
  all_bytes keep_byte s = true -> keep_printable s = s.
Proof.
  induction s as [| a s IH]; [reflexivity |].
  cbn [all_bytes keep_printable]. intros H.
  apply andb_true_iff in H as [Ha Hs]. rewrite Ha, (IH Hs). reflexivity.
Qed.

Lemma keep_printable_shorter s :
  (String.length (keep_printable s) <= String.length s)%nat.
Proof.
  induction s as [| a s IH]; [reflexivity |].
  cbn [keep_printable]. destruct (keep_byte a); cbn [String.length]; lia.
Qed.

Lemma substring_head_length n : forall s,
  String.length (String.substring 0 n s) = Nat.min n (String.length s).
Proof.
  induction n as [| n IH]; intros s; destruct s as [| a s]; cbn; auto.
Qed.

Lemma substring_head_all P n : forall s,
  all_bytes P s = true -> all_bytes P (String.substring 0 n s) = true.
Proof.
  induction n as [| n IH]; intros s; destruct s as [| a s]; cbn; auto.
  intros H. apply andb_true_iff in H as [Ha Hs]. by rewrite Ha, IH.
Qed.

(** X14 *)
(** [cleanForFiglet] returns at most 100 bytes, each of them printable
    ASCII, a newline or a tab, and never more bytes than it was given.
    Text that already has this form is returned unchanged, so cleaning
    twice is the same as cleaning once. *)
Theorem cleanForFiglet_clean (text : string) :
  (String.length (cleanForFiglet text) <= 100)%nat
  /\ (String.length (cleanForFiglet text) <= String.length text)%nat
  /\ all_bytes keep_byte (cleanForFiglet text) = true
  /\ (all_bytes keep_byte text = true -> (String.length text <= 100)%nat ->
        cleanForFiglet text = text)
  /\ cleanForFiglet (cleanForFiglet text) = cleanForFiglet text.
Proof.
  assert (Hlen : forall t, (String.length (cleanForFiglet t) <= 100)%nat).
  { intros t. unfold cleanForFiglet.
    destruct (Nat.ltb_spec 100 (String.length (keep_printable t)));
      [rewrite substring_head_length |]; lia. }
  assert (Hall : forall t, all_bytes keep_byte (cleanForFiglet t) = true).
  { intros t. unfold cleanForFiglet.
    destruct (100 <? _)%nat;
      [apply substring_head_all |]; apply keep_printable_all. }
  assert (Hfix : forall t, all_bytes keep_byte t = true ->
                           (String.length t <= 100)%nat -> cleanForFiglet t = t).
  { intros t Ht Hl. unfold cleanForFiglet. rewrite (keep_printable_fixed t Ht).
    destruct (Nat.ltb_spec 100 (String.length t)); [lia | reflexivity]. }
  split; [apply Hlen |]. split; [| split; [apply Hall | split; [apply Hfix |]]].
  - unfold cleanForFiglet. pose proof (keep_printable_shorter text).
    destruct (100 <? _)%nat; [rewrite substring_head_length |]; lia.
  - apply Hfix; [apply Hall | apply Hlen].
Qed.

Lemma cleanForFiglet_clean_witness :
  cleanForFiglet "Hello, World!" = "Hello, World!"%string.
Proof.
  refine (proj1 (proj2 (proj2 (proj2 (cleanForFiglet_clean "Hello, World!")))) _ _).
  - vm_compute. reflexivity.
  - vm_compute. lia.
Defined.

(** Bytes above 126, here the three bytes of a snowman, are dropped. *)
Example cleanForFiglet_drops_non_ascii :
  cleanForFiglet "a☃b" = "ab"%string.
Proof. reflexivity. Qed.
End CleanFacts.

(** ** Lines: splitting and joining *)

Section LineFacts.
Import Text Observe.
Local Open Scope Z_scope.

Lemma Split_newline_nonempty s : Split_newline s <> [].
Proof.
  destruct s as [| a s]; cbn [Split_newline]; [discriminate |].
  destruct (Ascii.eqb a newline); [discriminate |].
  destruct (Split_newline s); discriminate.
Qed.

Lemma Join_Split s : Join_newline (Split_newline s) = s.
Proof.
  induction s as [| a s IH]; [reflexivity |].
  cbn [Split_newline]. destruct (Ascii.eqb_spec a newline) as [-> | Hne].
  - pose proof (Split_newline_nonempty s) as Hs.
    cbn [Join_newline]. destruct (Split_newline s) as [| l ls]; [contradiction |].
    rewrite IH. reflexivity.
  - pose proof (Split_newline_nonempty s) as Hs.
    destruct (Split_newline s) as [| l ls]; [contradiction |].
    destruct ls as [| l' ls]; [cbn in *; congruence |].
    change (Join_newline (String a l :: l' :: ls))
      with (String a l +:+ String newline (Join_newline (l' :: ls))).
    change (Join_newline (l :: l' :: ls))
      with (l +:+ String newline (Join_newline (l' :: ls))) in IH.
    rewrite <- IH. reflexivity.
Qed.

Lemma Split_single_lines s : Forall (fun l => single_line l = true) (Split_newline s).
Proof.
  induction s as [| a s IH]; [repeat constructor |].
  cbn [Split_newline]. destruct (Ascii.eqb a newline) eqn:Ha.
  - by constructor.
  - pose proof (Split_newline_nonempty s) as Hs.
    destruct (Split_newline s) as [| l ls]; [contradiction |].
    inversion IH as [| ? ? Hl Hls]; subst. constructor; [| exact Hls].
    unfold single_line in *. cbn [all_bytes]. by rewrite Ha, Hl.
Qed.

Lemma Split_single_line l : single_line l = true -> Split_newline l = [l].
Proof.
  unfold single_line. induction l as [| a l IH]; [reflexivity |].
  cbn [all_bytes Split_newline]. intros H. apply andb_true_iff in H as [Ha Hl].
  apply negb_true_iff in Ha. rewrite Ha, (IH Hl). reflexivity.
Qed.

Lemma Split_line_then l rest :
  single_line l = true ->
  Split_newline (l +:+ String newline rest) = l :: Split_newline rest.
Proof.
  unfold single_line. induction l as [| a l IH]; intros H.
  - cbn. reflexivity.
  - cbn [all_bytes] in H. apply andb_true_iff in H as [Ha Hl].
    apply negb_true_iff in Ha.
    change (String a l +:+ String newline rest)
      with (String a (l +:+ String newline rest)).
    cbn [Split_newline]. rewrite Ha, (IH Hl). reflexivity.
Qed.

Lemma Split_Join ls :
  ls <> [] -> Forall (fun l => single_line l = true) ls ->
  Split_newline (Join_newline ls) = ls.
Proof.
  induction ls as [| l ls IH]; [contradiction |]. intros _ Hall.
  inversion Hall as [| ? ? Hl Hls]; subst.
  destruct ls as [| l' ls]; [by apply Split_single_line |].
  change (Join_newline (l :: l' :: ls))
    with (l +:+ String newline (Join_newline (l' :: ls))).
  rewrite (Split_line_then _ _ Hl), IH; [reflexivity | discriminate | exact Hls].
Qed.

Lemma len_append a b : len (a +:+ b) = len a + len b.
Proof.
  unfold len. induction a as [| c a IH]; [reflexivity |].
  change (String c a +:+ b) with (String c (a +:+ b)).
  change (String.length (String c (a +:+ b))) with (S (String.length (a +:+ b))).
  change (String.length (String c a)) with (S (String.length a)).
  lia.
Qed.

Lemma len_nonneg s : 0 <= len s.
Proof. unfold len. lia. Qed.

Lemma len_repeat_byte (c : ascii) n :
  len (repeat_string (String c EmptyString) n) = Z.of_nat n.
Proof.
  induction n as [| n IH]; [reflexivity |].
  cbn [repeat_string]. rewrite len_append, IH. unfold len. cbn. lia.
Qed.

Lemma single_line_append a b :
  single_line (a +:+ b) = single_line a && single_line b.
Proof.
  unfold single_line. induction a as [| c a IH]; [reflexivity |].
  change (String c a +:+ b) with (String c (a +:+ b)).
  cbn [all_bytes]. rewrite IH. by rewrite andb_assoc.
Qed.

Lemma single_line_repeat s n :
  single_line s = true -> single_line (repeat_string s n) = true.
Proof.
  intros Hs. induction n as [| n IH]; [reflexivity |].
  cbn [repeat_string]. by rewrite single_line_append, Hs, IH.
Qed.

Lemma Repeat_nonneg s count :
  0 <= count -> Repeat s count = Some (repeat_string s (Z.to_nat count)).
Proof.
  intros H. unfold Repeat. destruct (Z.ltb_spec count 0); [lia | reflexivity].
Qed.

Lemma max_len_fold lines : forall acc,
  let m := fold_left (fun maxLen line => if len line >? maxLen then len line else maxLen)
                     lines acc in
  acc <= m /\ Forall (fun l => len l <= m) lines.
Proof.
  induction lines as [| l lines IH]; intros acc; cbn [fold_left].
  - split; [lia | constructor].
  - specialize (IH (if len l >? acc then len l else acc)).
    cbv zeta in IH. destruct IH as [Hacc Hall].
    destruct (Z.gtb_spec (len l) acc); (split; [lia |]);
      (constructor; [lia | exact Hall]).
Qed.

Lemma max_len_bound lines :
  0 <= max_len lines /\ Forall (fun l => len l <= max_len lines) lines.
Proof. apply (max_len_fold lines 0). Qed.
End LineFacts.

(** ** Alignment and borders *)

Section LayoutFacts.
Import Text Observe.
Local Open Scope Z_scope.

Lemma mapM_total_on {A B : Type} (f : A -> option B) (g : A -> B) (l : list A) :
  Forall (fun x => f x = Some (g x)) l -> mapM f l = Some (map g l).
Proof.
  intros H. apply mapM_Some_2. induction H; constructor; auto.
Qed.

Lemma left_padding_nonneg align width line : 0 <= left_padding align width line.
Proof.
  unfold left_padding. destruct (Z.geb_spec (len line) width); [lia |].
  repeat case_decide; try lia. apply Z.quot_pos; lia.
Qed.

Lemma align_line_padded align width line :
  align_line align width line = Some (padded align width line).
Proof.
  unfold align_line, padded, left_padding.
  destruct (Z.geb_spec (len line) width); [reflexivity |].
  repeat case_decide; try reflexivity.
  - rewrite Repeat_nonneg by (apply Z.quot_pos; lia). reflexivity.
  - rewrite Repeat_nonneg by lia. reflexivity.
Qed.

Lemma padded_single_line align width line :
  single_line line = true -> single_line (padded align width line) = true.
Proof.
  intros H. unfold padded.
  rewrite single_line_append, H, single_line_repeat; reflexivity.
Qed.

Lemma len_padded align width line :
  len (padded align width line) = left_padding align width line + len line.
Proof.
  unfold padded. rewrite len_append.
  change " "%string with (String " "%char EmptyString).
  rewrite len_repeat_byte, Z2Nat.id by apply left_padding_nonneg. reflexivity.
Qed.

(** X15 *)
(** [alignText] never panics and keeps the lines of the text, in order
    and in number: each output line is the input line with spaces in
    front, none when the line is already as wide as [width].  With a
    width of 0 or less, or an alignment other than center and right, the
    text comes back unchanged; with right alignment every output line is
    at least [width] bytes wide, and exactly [width] when the input line
    was shorter. *)
Theorem alignText_pads_left (text align : string) (width : Z) :
  exists out,
    alignText text align width = Some out
    /\ Split_newline out = map (padded align width) (Split_newline text)
    /\ (width <= 0 \/ (align <> "center"%string /\ align <> "right"%string) ->
          out = text)
    /\ (align = "right"%string ->
          Forall2 (fun line o => len o = Z.max (len line) width)
                  (Split_newline text) (Split_newline out)).
Proof.
  assert (Hzero : forall lines,
            Forall (fun l => left_padding align width l = 0) lines ->
            map (padded align width) lines = lines).
  { intros lines H. induction H as [| l lines Hl _ IH]; [reflexivity |].
    cbn [map]. rewrite IH. unfold padded. rewrite Hl. reflexivity. }
  assert (Hsplit : Split_newline
                     (Join_newline (map (padded align width) (Split_newline text)))
                   = map (padded align width) (Split_newline text)).
  { apply Split_Join.
    - pose proof (Split_newline_nonempty text).
      destruct (Split_newline text); [contradiction | discriminate].
    - apply Forall_map. eapply Forall_impl; [apply Split_single_lines |].
      intros l Hl. by apply padded_single_line. }
  assert (Hright : align = "right"%string ->
            Forall2 (fun line o => len o = Z.max (len line) width)
                    (Split_newline text)
                    (map (padded align width) (Split_newline text))).
  { intros Ha. generalize (Split_newline text). intros ls.
    induction ls as [| l ls IH]; cbn [map]; constructor; [| exact IH].
    subst align. rewrite len_padded. unfold left_padding.
    destruct (Z.geb_spec (len l) width); [lia |].
    repeat case_decide; try discriminate; try contradiction; lia. }
  unfold alignText. destruct (Z.leb_spec width 0) as [Hw | Hw].
  - exists text.
    assert (Hid : map (padded align width) (Split_newline text) = Split_newline text).
    { apply Hzero. apply Forall_forall. intros l _. unfold left_padding.
      pose proof (len_nonneg l). destruct (Z.geb_spec (len l) width); [reflexivity | lia]. }
    split; [reflexivity |]. split; [by rewrite Hid |]. split; [reflexivity |].
    intros Ha. rewrite <- Hid at 2. by apply Hright.
  - rewrite (mapM_total_on _ (padded align width));
      [| apply Forall_forall; intros l _; apply align_line_padded].
    cbn. eexists. split; [reflexivity |]. split; [exact Hsplit |].
    split; [| rewrite Hsplit; exact Hright].
    intros [Hle | [Hc Hr]]; [lia |].
    rewrite Hzero; [apply Join_Split |].
    apply Forall_forall. intros l _. unfold left_padding.
    destruct (_ >=? _); [reflexivity |]. repeat case_decide; congruence.
Qed.

Lemma alignText_pads_left_witness :
  exists out,
    alignText "ab" "left" 10 = Some out /\ out = "ab"%string.
Proof.
  destruct (alignText_pads_left "ab" "left" 10) as (out & Hout & _ & Hsame & _).
  exists out. split; [exact Hout |].
  apply Hsame. right. split; discriminate.
Defined.

Example alignText_right :
  alignText (Join_newline ["ab"; "abcdef"; ""]%string) "right" 4
  = Some (Join_newline ["  ab"; "abcdef"; "    "]%string).
Proof. reflexivity. Qed.

Example alignText_center :
  alignText "ab" "center" 7 = Some "  ab"%string.
Proof. reflexivity. Qed.
End LayoutFacts.

Section BorderFacts.
Import Text Observe.
Local Open Scope Z_scope.

Lemma border_line_framed b maxLen line :
  len line <= maxLen -> border_line b maxLen line = Some (framed b maxLen line).
Proof.
  intros H. unfold border_line, framed. rewrite Repeat_nonneg by lia. reflexivity.
Qed.

Lemma bordered_lines_framed b lines :
  bordered_lines b (max_len lines) lines
  = Some ([top b] ++ map (framed b (max_len lines)) lines ++ [bottom b]).
Proof.
  unfold bordered_lines.
  rewrite (mapM_total_on _ (framed b (max_len lines))); [reflexivity |].
  eapply Forall_impl; [apply max_len_bound |].
  intros l Hl. by apply border_line_framed.
Qed.

Lemma framed_single_line b maxLen line :
  single_line (left b) = true -> single_line (right b) = true ->
  single_line line = true -> single_line (framed b maxLen line) = true.
Proof.
  intros Hl Hr Hline. unfold framed.
  rewrite !single_line_append, Hl, Hr, Hline, single_line_repeat; reflexivity.
Qed.

Lemma Split_bordered b text :
  single_line (top b) = true -> single_line (bottom b) = true ->
  single_line (left b) = true -> single_line (right b) = true ->
  let lines := Split_newline text in
  let bordered := [top b] ++ map (framed b (max_len lines)) lines ++ [bottom b] in
  Split_newline (Join_newline bordered) = bordered.
Proof.
  intros Ht Hb Hl Hr lines bordered. apply Split_Join; [discriminate |].
  subst bordered. constructor; [exact Ht |]. apply Forall_app. split.
  - apply Forall_map. eapply Forall_impl; [apply Split_single_lines |].
    intros l Hline. by apply framed_single_line.
  - by constructor.
Qed.

Lemma len_framed_box maxLen line :
  len line <= maxLen ->
  len (framed {| top := box_bar maxLen; bottom := box_bar maxLen;
                 left := "| "; right := " |" |} maxLen line) = maxLen + 4.
Proof.
  intros H. unfold framed. cbn [left right]. rewrite !len_append.
  change " "%string with (String " "%char EmptyString).
  rewrite len_repeat_byte, Z2Nat.id by lia.
  change (len "| ") with 2. change (len (String " " (String "|" EmptyString))) with 2.
  lia.
Qed.

Lemma len_box_bar maxLen : 0 <= maxLen -> len (box_bar maxLen) = maxLen + 4.
Proof.
  intros H. unfold box_bar. rewrite !len_append.
  change "-"%string with (String "-"%char EmptyString).
  rewrite len_repeat_byte, Z2Nat.id by lia.
  change (len "+") with 1. lia.
Qed.

(** X16 *)
(** [addBorder] never panics.  A style other than box and double returns
    the text unchanged.  The box style puts one bar above and the same
    bar below the lines of the text, frames every line between "| " and
    " |", and fills the shorter lines with spaces, so that every line of
    the result, bars included, is exactly four bytes wider than the
    widest line of the text.  The double style adds two lines as well. *)
Theorem addBorder_frames (text style : string) :
  let lines := Split_newline text in
  exists out,
    addBorder text style = Some out
    /\ (style <> "box"%string -> style <> "double"%string -> out = text)
    /\ (style = "box"%string ->
          Split_newline out
          = [box_bar (max_len lines)]
            ++ map (framed {| top := box_bar (max_len lines);
                              bottom := box_bar (max_len lines);
                              left := "| "; right := " |" |} (max_len lines))
                   lines
            ++ [box_bar (max_len lines)]
          /\ Forall (fun o => len o = max_len lines + 4) (Split_newline out))
    /\ (style = "double"%string ->
          length (Split_newline out) = S (S (length lines))).
Proof.
  intros lines. pose proof (max_len_bound lines) as [Hmax Hall].
  unfold addBorder, border_of. fold lines.
  destruct (decide (style = "box"%string)) as [-> | Hbox].
  - rewrite Repeat_nonneg by lia. cbn [mbind option_bind].
    fold (box_bar (max_len lines)).
    rewrite bordered_lines_framed. cbn [mbind option_bind top bottom].
    eexists. split; [reflexivity |]. split; [congruence |].
    split; [| discriminate]. intros _.
    assert (Hs : single_line (box_bar (max_len lines)) = true).
    { unfold box_bar. rewrite !single_line_append, single_line_repeat; reflexivity. }
    pose proof (Split_bordered
                  {| top := box_bar (max_len lines); bottom := box_bar (max_len lines);
                     left := "| "; right := " |" |} text Hs Hs eq_refl eq_refl) as Hsplit.
    cbv zeta in Hsplit. fold lines in Hsplit. cbn [top bottom] in Hsplit.
    rewrite Hsplit. split; [reflexivity |].
    constructor; [by apply len_box_bar |]. apply Forall_app. split.
    + apply Forall_map. eapply Forall_impl; [exact Hall |].
      intros l Hl. by apply len_framed_box.
    + constructor; [by apply len_box_bar | constructor].
  - destruct (decide (style = "double"%string)) as [-> | Hdouble].
    + rewrite Repeat_nonneg by lia. cbn [mbind option_bind].
      rewrite bordered_lines_framed. cbn [mbind option_bind top bottom].
      eexists. split; [reflexivity |]. split; [congruence |].
      split; [discriminate |]. intros _.
      match goal with
      | |- context [framed ?b _] =>
          pose proof (Split_bordered b text) as Hsplit
      end.
      cbv zeta in Hsplit. fold lines in Hsplit. cbn [top bottom left right] in Hsplit.
      rewrite Hsplit;
        [ cbn [app length]; rewrite length_app, length_map; cbn [length]; lia
        | rewrite !single_line_append, single_line_repeat; reflexivity
        | rewrite !single_line_append, single_line_repeat; reflexivity
        | reflexivity | reflexivity ].
    + cbn [mbind option_bind]. exists text.
      split; [reflexivity |]. split; [reflexivity |]. split; contradiction.
Qed.

Lemma addBorder_frames_witness :
  exists out,
    addBorder (Join_newline ["ab"; "abcd"]%string) "box" = Some out
    /\ Split_newline out = ["+------+"; "| ab   |"; "| abcd |"; "+------+"]%string.
Proof.
  destruct (addBorder_frames (Join_newline ["ab"; "abcd"]%string) "box")
    as (out & Hout & _ & Hbox & _).
  exists out. split; [exact Hout |].
  destruct (Hbox eq_refl) as [Hsplit _]. rewrite Hsplit.
  vm_compute. reflexivity.
Defined.
End BorderFacts.

(** ** The animation loop *)

Section LoopFacts.
Import Types Handlers Observe.
Local Open Scope Z_scope.

Lemma animation_loop_flushed (k : nat) : forall frame rest,
  0 <= frame -> frame + Z.of_nat k <= Int64.max_int64 ->
  let r := animation_loop (replicate k TickFlushed ++ rest) frame in
  let r' := animation_loop rest (frame + Z.of_nat k) in
  frame_indices (fst r)
  = map (fun i => frame + Z.of_nat i) (seq 0 k) ++ frame_indices (fst r')
  /\ wrote_reset (fst r) = wrote_reset (fst r')
  /\ snd r = snd r'.
Proof.
  induction k as [| k IH]; intros frame rest Hf Hk.
  - cbn [replicate app seq map]. rewrite Z.add_0_r. auto.
  - cbn [replicate app animation_loop].
    rewrite wrap_id by int64_bounds.
    specialize (IH (frame + 1) rest ltac:(lia) ltac:(lia)).
    cbv zeta in IH. replace (frame + 1 + Z.of_nat k) with (frame + Z.of_nat (S k)) in IH by lia.
    destruct (animation_loop (replicate k TickFlushed ++ rest) (frame + 1)) as [ws out].
    cbn [fst snd frame_indices wrote_reset existsb is_reset orb] in *.
    destruct IH as (Hfr & Hres & Hout). rewrite Hfr.
    split; [| auto]. cbn [seq map]. rewrite Z.add_0_r.
    rewrite <- seq_shift, map_map. cbn [app]. f_equal. f_equal.
    apply map_ext. intros i. lia.
Qed.

Lemma ticks_shape (ticks : list tick) :
  exists k,
    ticks = replicate k TickFlushed
    \/ (exists rest, ticks = replicate k TickFlushed ++ TickFlushFailed :: rest)
    \/ (exists rest, ticks = replicate k TickFlushed ++ TickFault :: rest).
Proof.
  induction ticks as [| t ticks [k IH]]; [exists 0%nat; by left |].
  destruct t.
  - exists (S k). destruct IH as [-> | [[rest ->] | [rest ->]]];
      [by left | right; left; by exists rest | right; right; by exists rest].
  - exists 0%nat. right; left. by exists ticks.
  - exists 0%nat. right; right. by exists ticks.
Qed.

(** X17 *)
(** The stream writer emits frames 0, 1, 2, ... in this order with no
    gap and no repetition.  When the timer fires after [k] flushed
    frames it has written exactly these [k] frames and then the colour
    reset; when a flush fails it has written [k + 1] frames and no
    reset; when rendering panics it has written [k] frames and no reset.
    Every run of the loop has one of these three forms. *)
Theorem animation_frames_in_order (sw : StreamWriter) (k : nat) (rest : list tick)
    (Hk : Z.of_nat k < Int64.max_int64) :
  (let r := run_writer sw (replicate k TickFlushed) in
   frame_indices (fst r) = first_frames k
   /\ wrote_reset (fst r) = true /\ snd r = Return)
  /\ (let r := run_writer sw (replicate k TickFlushed ++ TickFlushFailed :: rest) in
      frame_indices (fst r) = first_frames (S k)
      /\ wrote_reset (fst r) = false /\ snd r = Return)
  /\ (let r := run_writer sw (replicate k TickFlushed ++ TickFault :: rest) in
      frame_indices (fst r) = first_frames k
      /\ wrote_reset (fst r) = false /\ snd r = Panic)
  /\ (forall ticks, exists k',
        ticks = replicate k' TickFlushed
        \/ (exists rest', ticks = replicate k' TickFlushed ++ TickFlushFailed :: rest')
        \/ (exists rest', ticks = replicate k' TickFlushed ++ TickFault :: rest')).
Proof.
  assert (Hrun : forall ticks,
            frame_indices (fst (run_writer sw ticks))
            = frame_indices (fst (animation_loop ticks 0))
            /\ wrote_reset (fst (run_writer sw ticks))
               = wrote_reset (fst (animation_loop ticks 0))
            /\ snd (run_writer sw ticks) = snd (animation_loop ticks 0)).
  { intros ticks. unfold run_writer.
    destruct (animation_loop ticks 0) as [ws out]. cbn. auto. }
  assert (Hseq : map (fun i => 0 + Z.of_nat i) (seq 0 k) = first_frames k).
  { unfold first_frames. apply map_ext. intros i. lia. }
  split; [| split; [| split; [| exact ticks_shape]]]; cbv zeta.
  - destruct (Hrun (replicate k TickFlushed)) as (-> & -> & ->).
    rewrite <- (app_nil_r (replicate k TickFlushed)).
    destruct (animation_loop_flushed k 0 [] ltac:(lia) ltac:(lia)) as (-> & -> & ->).
    cbn [animation_loop fst snd frame_indices]. rewrite app_nil_r, Hseq. auto.
  - destruct (Hrun (replicate k TickFlushed ++ TickFlushFailed :: rest))
      as (-> & -> & ->).
    destruct (animation_loop_flushed k 0 (TickFlushFailed :: rest)
                ltac:(lia) ltac:(lia)) as (-> & -> & ->).
    cbn [animation_loop fst snd frame_indices]. rewrite Hseq.
    split; [| auto]. unfold first_frames.
    rewrite seq_S, map_app. reflexivity.
  - destruct (Hrun (replicate k TickFlushed ++ TickFault :: rest))
      as (-> & -> & ->).
    destruct (animation_loop_flushed k 0 (TickFault :: rest)
                ltac:(lia) ltac:(lia)) as (-> & -> & ->).
    cbn [animation_loop fst snd frame_indices]. rewrite app_nil_r, Hseq. auto.
Qed.

Lemma animation_frames_in_order_witness :
  frame_indices
    (fst (run_writer {| sw_ascii := "HI"; sw_opts := parsed (demo_request "HI" 5);
                        sw_timeout := 5 * Second;
                        sw_frameDelay := 120 * Millisecond |}
            (replicate 3 TickFlushed ++ TickFlushFailed :: [TickFlushed])))
  = [0; 1; 2; 3].
Proof.
  refine (proj1 (proj1 (proj2
            (animation_frames_in_order
               {| sw_ascii := "HI"; sw_opts := parsed (demo_request "HI" 5);
                  sw_timeout := 5 * Second; sw_frameDelay := 120 * Millisecond |}
               3 [TickFlushed] _)))).
  vm_compute. reflexivity.
Defined.
End LoopFacts.

(** ** What a request leaves behind *)

Section RequestFacts.
Import Types Handlers.
Local Open Scope Z_scope.

Lemma wrap_up_down a : Int64.in_range a -> Int64.wrap (Int64.wrap (a + 1) + -1) = a.
Proof.
  intros Ha. destruct (Z.eq_dec a Int64.max_int64) as [-> | Hne]; [reflexivity |].
  rewrite (wrap_id (a + 1)) by int64_bounds.
  rewrite wrap_id by int64_bounds. lia.
Qed.

Ltac party_cases cfg gen req w E G :=
  unfold serve, partyHandler, connManager_TryAcquire, defer, streamAnimated,
    world_of, ctx_of;
  cbn [inc_PartyRequests set_metrics connManager metrics cm_calls];
  destruct (TryAcquire (connManager w)) as [[|] ?cm] eqn:E; cbn [negb];
  [ destruct (decide (param_star req = ""%string));
    [| destruct (String.length _ =? 0)%nat;
       [| destruct (validateOptions (parsed req)) eqn:?Hvalid;
          [| destruct (gen _ _) eqn:G ]]]
  | ];
  cbn -[Int64.wrap Z.add].

(** X18 *)
(** Every request to the party handler adds one to [PartyRequests].  It
    leaves [ActiveStreams] as it found it, the increment made by
    [streamAnimated] being undone when that function returns or panics.
    [RejectedStreams] grows by one exactly when the slot was refused,
    and [TotalErrors] by one exactly when the reply is a 500. *)
Theorem request_metrics
    (config_Server : ServerConfig)
    (generateASCII : string -> RenderOptions -> generated)
    (req : Request) (ticks : list tick) (w : World)
    (Hactive : Int64.in_range (ActiveStreams (metrics w))) :
  let r := serve config_Server generateASCII req ticks w in
  let m := metrics w in
  let m' := metrics (world_of r) in
  PartyRequests m' = Int64.wrap (PartyRequests m + 1)
  /\ ActiveStreams m' = ActiveStreams m
  /\ RejectedStreams m'
     = (if fst (TryAcquire (connManager w)) then RejectedStreams m
        else Int64.wrap (RejectedStreams m + 1))
  /\ TotalErrors m'
     = (if status (ctx_of r) =? 500 then Int64.wrap (TotalErrors m + 1)
        else TotalErrors m).
Proof.
  cbv zeta.
  party_cases config_Server generateASCII req w E G;
    rewrite ?wrap_up_down by exact Hactive; try (repeat split; reflexivity).
  destruct (run_writer _ ticks). cbn -[Int64.wrap Z.add].
  rewrite ?wrap_up_down by exact Hactive. repeat split; reflexivity.
Qed.

Lemma request_metrics_witness :
  ActiveStreams (metrics (world_of (serve (server 30) demo_generateASCII
                                      (demo_request "ERR" 0) [] (demo_world 2))))
  = ActiveStreams (metrics (demo_world 2)).
Proof.
  refine (proj1 (proj2 (request_metrics (server 30) demo_generateASCII
                          (demo_request "ERR" 0) [] (demo_world 2) _))).
  vm_compute. split; discriminate.
Defined.

(** X19 *)
(** The party handler answers 503 exactly when the slot is refused, and
    then touches nothing but the counters; otherwise it answers 400, 500
    or 200.  Nothing is written to the connection unless a stream writer
    was installed, and one is installed only for an admitted request
    whose options validate and whose text rendered: the status is then
    200, the timer is the effective deadline of the parsed options and
    the ticker delay that of their speed. *)
Theorem partyHandler_responses
    (config_Server : ServerConfig)
    (generateASCII : string -> RenderOptions -> generated)
    (req : Request) (ticks : list tick) (w : World) :
  let r := serve config_Server generateASCII req ticks w in
  let c := ctx_of r in
  (status c = 503 <-> fst (TryAcquire (connManager w)) = false)
  /\ (status c = 200 \/ status c = 400 \/ status c = 500 \/ status c = 503)
  /\ (fst (TryAcquire (connManager w)) = false ->
        connManager (world_of r) = connManager w
        /\ (forall sw, body c <> BodyStream sw))
  /\ ((forall sw, body c <> BodyStream sw) -> snd (fst r) = [])
  /\ (forall sw, body c = BodyStream sw ->
        fst (TryAcquire (connManager w)) = true
        /\ status c = 200
        /\ validateOptions (parsed req) = None
        /\ generateASCII (cleanForFiglet (plus_to_space (param_star req)))
                         (apply_timeout_limits config_Server (parsed req))
           = GenOk (sw_ascii sw)
        /\ sw_timeout sw = effective_deadline config_Server (parsed req)
        /\ sw_frameDelay sw = calculateFrameDelay (Speed (parsed req))).
Proof.
  cbv zeta.
  assert (Hspeed : Speed (apply_timeout_limits config_Server (parsed req))
                   = Speed (parsed req)).
  { unfold apply_timeout_limits. destruct (_ || _); reflexivity. }
  party_cases config_Server generateASCII req w E G.
  1-3,5-6: (repeat split; intros; try congruence; auto 6).
  2: { assert (Hcm : cm = connManager w).
       { unfold TryAcquire in E. destruct (_ >=? _); congruence. }
       repeat split; intros; try congruence; auto 6. }
  destruct (run_writer _ ticks) as [ws out'] eqn:Hrun. cbn -[Int64.wrap Z.add].
  split; [split; discriminate |]. split; [tauto |]. split; [discriminate |].
  split; [intros H; exfalso; eapply H; reflexivity |].
  intros sw [= <-]. cbn [sw_ascii sw_timeout sw_frameDelay].
  rewrite Hspeed. auto 10.
Qed.

Lemma partyHandler_responses_witness :
  status (ctx_of (serve (server 30) demo_generateASCII
                    (demo_request "HI" 0) [] (demo_world 0))) = 503.
Proof.
  refine (proj2 (proj1 (partyHandler_responses (server 30) demo_generateASCII
                          (demo_request "HI" 0) [] (demo_world 0))) _).
  vm_compute. reflexivity.
Defined.
End RequestFacts.

(** ** The stream timer *)

Section TimerFacts.
Import Types Handlers.
Local Open Scope Z_scope.

(** X20 *)
(** For a requested timeout that is not negative the stream timer never
    exceeds the server maximum, and it is positive whenever the maximum
    is.  A negative timeout is not rejected by validation and is not
    clamped: whatever the (non-negative) server maximum, the timer is
    then the 5-minute default. *)
Theorem stream_timer_bounds (maxSeconds : Z) (opts : RenderOptions)
    (Hmax : Int64.in_range (maxSeconds * Second)) :
  (0 <= Timeout opts ->
     effective_deadline (server maxSeconds) opts
       <= MaxStreamDuration (server maxSeconds)
     /\ (0 < maxSeconds -> 0 < effective_deadline (server maxSeconds) opts))
  /\ (Timeout opts < 0 -> Timeout opts <= maxSeconds ->
        effective_deadline (server maxSeconds) opts = DefaultStreamTimeout
        /\ validateOptions opts = validateOptions (set_Timeout opts 0)).
Proof.
  split.
  - intros Hreq. rewrite (effective_deadline_eq maxSeconds opts Hreq Hmax).
    unfold server, DefaultStreamTimeout, Minute, Second, Millisecond in *.
    cbn [MaxStreamDuration].
    destruct (Z.eqb_spec (Timeout opts) 0);
      destruct (Z.gtb_spec (Timeout opts) maxSeconds); cbn [orb]; lia.
  - intros Hneg Hle. split; [| reflexivity].
    unfold effective_deadline, apply_timeout_limits, server.
    cbn [MaxStreamDuration]. rewrite Duration_Seconds_int_whole.
    destruct (Z.eqb_spec (Timeout opts) 0); [lia |].
    destruct (Z.gtb_spec (Timeout opts) maxSeconds); [lia |]. cbn [orb].
    unfold timeoutDuration.
    destruct (Z.gtb_spec (Timeout opts) 0); [lia | reflexivity].
Qed.

Lemma stream_timer_bounds_witness :
  effective_deadline (server 30) (parsed (demo_request "HI" 10))
    <= MaxStreamDuration (server 30)
  /\ effective_deadline (server 30) (parsed (demo_request "HI" (-1)))
     = DefaultStreamTimeout.
Proof.
  split.
  - refine (proj1 (proj1 (stream_timer_bounds 30 (parsed (demo_request "HI" 10)) _) _)).
    + vm_compute. split; discriminate.
    + vm_compute. discriminate.
  - refine (proj1 (proj2 (stream_timer_bounds 30 (parsed (demo_request "HI" (-1))) _) _ _)).
    + vm_compute. split; discriminate.
    + vm_compute. reflexivity.
    + vm_compute. discriminate.
Defined.
End TimerFacts.

(** ** The connection-limit middleware *)

Section MiddlewareFacts.
Import Types Handlers Middleware.
Local Open Scope Z_scope.

(** X21 *)
(** On a path outside [/p/] and [/party/] the middleware is the rest of
    the chain and makes no call on the manager.  On a streaming path a
    refused slot answers 503 without running the rest of the chain; a
    granted slot is released once the rest of the chain has returned or
    panicked, so that around a chain that leaves the manager alone the
    calls recorded are one successful acquire and one release, and the
    count is back where it was. *)
Theorem Middleware_brackets_next
    (next : Ctx -> World -> World * Ctx * Outcome)
    (path : string) (c : Ctx) (w : World) :
  let streaming := HasPrefix path "/p/" || HasPrefix path "/party/" in
  (streaming = false -> Middleware next path c w = next c w)
  /\ (streaming = true -> fst (TryAcquire (connManager w)) = false ->
        let '(w', c', out) := Middleware next path c w in
        cm_calls w' = cm_calls w ++ [Some false]
        /\ connManager w' = connManager w
        /\ status c' = 503 /\ out = Return)
  /\ (streaming = true -> fst (TryAcquire (connManager w)) = true ->
      (forall c0 w0, connManager (fst (fst (next c0 w0))) = connManager w0
                     /\ cm_calls (fst (fst (next c0 w0))) = cm_calls w0) ->
        let '(w', c', out) := Middleware next path c w in
        cm_calls w' = cm_calls w ++ [Some true; None]
        /\ (well_typed (connManager w) -> connManager w' = connManager w)
        /\ (c', out) = (snd (fst (next c (snd (connManager_TryAcquire w)))),
                        snd (next c (snd (connManager_TryAcquire w))))).
Proof.
  cbv zeta. unfold Middleware.Middleware.
  destruct (HasPrefix path "/p/"), (HasPrefix path "/party/");
    cbn [orb negb andb];
    (split; [first [discriminate | reflexivity] |]);
    (split; [try discriminate | try discriminate]).
  all: try (intros _ Hfull; unfold connManager_TryAcquire;
            assert (Hcm : snd (TryAcquire (connManager w)) = connManager w)
              by (unfold TryAcquire in *; destruct (_ >=? _);
                  [reflexivity | discriminate]);
            destruct (TryAcquire (connManager w)) as [ok cm];
            cbn [fst snd] in *; subst ok cm; cbn; auto).
  all: intros _ Hok Hnext; unfold connManager_TryAcquire, defer;
    pose proof (TryAcquire_free (connManager w)) as Hfree;
    assert (Hlt : activeStreams (connManager w) < maxStreams (connManager w))
      by (unfold TryAcquire, atomic_LoadInt64 in Hok;
          destruct (Z.geb_spec (activeStreams (connManager w))
                               (maxStreams (connManager w)));
          [discriminate | lia]);
    destruct (TryAcquire (connManager w)) as [ok cm] eqn:E;
    cbn [fst snd] in *; subst ok; cbn [negb];
    set (w1 := {| connManager := cm; metrics := _; cm_calls := _ |});
    destruct (Hnext c w1) as [Hcm Hcalls];
    destruct (next c w1) as [[w2 c2] out2];
    subst w1;
    cbn [fst snd connManager cm_calls connManager_Release] in *;
    rewrite Hcm, Hcalls, <- app_assoc;
    (split; [reflexivity |]); (split; [| reflexivity]);
    intros Hty; specialize (Hfree Hty Hlt); injection Hfree as ->;
    unfold Release, atomic_AddInt64; cbn [fst activeStreams maxStreams];
    destruct Hty as [Ha Hm]; rewrite wrap_id by int64_bounds;
    destruct (connManager w) as [a m]; cbn; f_equal; lia.
Qed.

Lemma Middleware_brackets_next_witness :
  Middleware (fun c w => (w, SendString c 200 "ok", Return)) "/fonts"
    fresh_ctx (demo_world 1)
  = (demo_world 1, SendString fresh_ctx 200 "ok", Return).
Proof.
  refine (proj1 (Middleware_brackets_next
                   (fun c w => (w, SendString c 200 "ok", Return)) "/fonts"
                   fresh_ctx (demo_world 1)) _).
  vm_compute. reflexivity.
Defined.

Example Middleware_on_party_path :
  let '(w', c', out) :=
    Middleware (fun c w => (w, c, Panic)) "/party/HI" fresh_ctx (demo_world 1) in
  cm_calls w' = [Some true; None]
  /\ GetActiveCount (connManager w') = 0 /\ out = Panic.
Proof. vm_compute. auto. Qed.
End MiddlewareFacts.

(** ** The rate limiter *)

Section LimiterFacts.
Import Limiter.
Local Open Scope Z_scope.

Lemma Allow_other rl ip now later ip' :
  ip' <> ip -> visitors (snd (Allow rl ip now later)) !! ip' = visitors rl !! ip'.
Proof.
  intros Hne. unfold Allow.
  destruct (visitors rl !! ip) as [v |]; [| cbn; by rewrite lookup_insert_ne].
  destruct (_ >? Minute); [cbn; by rewrite lookup_insert_ne |].
  destruct (count v >=? 100); [reflexivity |].
  cbn. by rewrite lookup_insert_ne.
Qed.

(** X22 *)
(** [Allow] refuses a call exactly when the address has a record that
    is at most a minute old and already counts 100; a refused call
    changes nothing.  A call never touches the record of another
    address, and the counts stay between 1 and 100. *)
Theorem Allow_verdict (rl : RateLimiter) (ip : string) (now later : Z) :
  (fst (Allow rl ip now later) = false <->
     exists v, visitors rl !! ip = Some v
               /\ now - lastSeen v <= Minute /\ 100 <= count v)
  /\ (fst (Allow rl ip now later) = false -> snd (Allow rl ip now later) = rl)
  /\ (forall ip', ip' <> ip ->
        visitors (snd (Allow rl ip now later)) !! ip' = visitors rl !! ip')
  /\ (counts_in_range rl -> counts_in_range (snd (Allow rl ip now later))).
Proof.
  split; [| split; [| split; [intros ip'; apply Allow_other |]]].
  - unfold Allow. destruct (visitors rl !! ip) as [v |] eqn:Hv.
    + destruct (Z.gtb_spec (now - lastSeen v) Minute).
      * cbn. split; [discriminate |]. intros (v' & [= <-] & ? & ?). lia.
      * destruct (Z.geb_spec (count v) 100); cbn.
        -- split; [| reflexivity]. intros _. exists v. repeat split; lia.
        -- split; [discriminate |]. intros (v' & [= <-] & ? & ?). lia.
    + cbn. split; [discriminate |]. intros (v' & ? & _). discriminate.
  - unfold Allow. destruct (visitors rl !! ip) as [v |]; [| discriminate].
    destruct (_ >? Minute); [discriminate |].
    destruct (count v >=? 100); [reflexivity | discriminate].
  - intros Hinv k v Hk. destruct (decide (k = ip)) as [-> | Hne].
    + unfold Allow in Hk. destruct (visitors rl !! ip) as [v0 |] eqn:Hv0.
      * destruct (_ >? Minute).
        -- cbn in Hk. rewrite lookup_insert_eq in Hk. injection Hk as <-. cbn. lia.
        -- destruct (Z.geb_spec (count v0) 100).
           ++ cbn in Hk. rewrite Hv0 in Hk. injection Hk as <-. eauto.
           ++ cbn in Hk. rewrite lookup_insert_eq in Hk. injection Hk as <-.
              specialize (Hinv ip v0 Hv0). cbn [count].
              rewrite wrap_id by int64_bounds. lia.
      * cbn in Hk. rewrite lookup_insert_eq in Hk. injection Hk as <-. cbn. lia.
    + rewrite Allow_other in Hk by exact Hne. eauto.
Qed.

Lemma Allow_verdict_witness :
  snd (Allow {| visitors := {[ "10.0.0.1"%string := {| lastSeen := 0; count := 100 |} ]} |}
         "10.0.0.1" 5 6)
  = {| visitors := {[ "10.0.0.1"%string := {| lastSeen := 0; count := 100 |} ]} |}.
Proof.
  refine (proj1 (proj2 (Allow_verdict
            {| visitors := {[ "10.0.0.1"%string := {| lastSeen := 0; count := 100 |} ]} |}
            "10.0.0.1" 5 6)) _).
  vm_compute. reflexivity.
Defined.

Lemma serve_all_cons rl a rest :
  serve_all rl (a :: rest) =
    (fst (Allow rl (from a) (at_time a) (at_later a))
       :: fst (serve_all (snd (Allow rl (from a) (at_time a) (at_later a))) rest),
     snd (serve_all (snd (Allow rl (from a) (at_time a) (at_later a))) rest)).
Proof.
  cbn [serve_all]. destruct (Allow rl _ _ _) as [ok rl1]. cbn [fst snd].
  destruct (serve_all rl1 rest). reflexivity.
Qed.

(** Inside the window: the record of [ip] stamped [t0] counts [c]. *)
Lemma serve_all_in_window ip t0 arrivals : forall rl c,
  visitors rl !! ip = Some {| lastSeen := t0; count := c |} ->
  1 <= c <= 100 ->
  within_minute_of t0 ip arrivals ->
  Z.of_nat (allowed_from ip arrivals (fst (serve_all rl arrivals)))
  = Z.min (Z.of_nat (requests_from ip arrivals)) (100 - c).
Proof.
  induction arrivals as [| a rest IH]; intros rl c Hrec Hc Hwin.
  - cbn. lia.
  - rewrite serve_all_cons. cbn [fst allowed_from requests_from].
    inversion Hwin as [| ? ? Ha Hrest]; subst.
    destruct (decide (from a = ip)) as [Hip | Hip].
    + specialize (Ha Hip). unfold Allow at 1 2 3. rewrite Hip, Hrec. cbn [lastSeen count].
      destruct (Z.gtb_spec (at_time a - t0) Minute); [lia |].
      destruct (Z.geb_spec c 100) as [Hfull | Hroom]; cbn [fst snd].
      * rewrite (IH rl c Hrec Hc Hrest). lia.
      * rewrite !Nat2Z.inj_succ.
        rewrite (IH _ (c + 1)); [lia | | lia | exact Hrest].
        cbn [visitors]. rewrite lookup_insert_eq, wrap_id by int64_bounds.
        reflexivity.
    + rewrite (IH _ c); [reflexivity | | exact Hc | exact Hrest].
      rewrite Allow_other by congruence. exact Hrec.
Qed.

(** X23 *)
(** For an address the limiter has not seen before, of all its calls
    within one minute of the first, the first 100 are allowed and every
    later one is refused, whatever other addresses do in between. *)
Theorem first_minute_allows_100 (rl : RateLimiter) (ip : string)
    (arrivals : list arrival)
    (Hnew : visitors rl !! ip = None)
    (Hwindow : forall t0, first_time ip arrivals = Some t0 ->
                          within_minute_of t0 ip arrivals) :
  allowed_from ip arrivals (fst (serve_all rl arrivals))
  = Nat.min (requests_from ip arrivals) 100.
Proof.
  revert rl Hnew Hwindow. induction arrivals as [| a rest IH]; intros rl Hnew Hwindow.
  - reflexivity.
  - rewrite serve_all_cons. cbn [fst allowed_from requests_from first_time] in *.
    destruct (decide (from a = ip)) as [Hip | Hip].
    + specialize (Hwindow _ eq_refl).
      inversion Hwindow as [| ? ? _ Hrest]; subst.
      unfold Allow at 1 2. rewrite Hnew. cbn [fst snd].
      pose proof (serve_all_in_window (from a) (at_time a) rest
                    {| visitors := <[from a := {| lastSeen := at_time a; count := 1 |}]>
                                     (visitors rl) |} 1) as Hin.
      cbn [visitors] in Hin. rewrite lookup_insert_eq in Hin.
      specialize (Hin eq_refl ltac:(lia) Hrest). lia.
    + apply IH.
      * rewrite Allow_other by congruence. exact Hnew.
      * intros t0 Ht0. specialize (Hwindow t0 Ht0).
        by inversion Hwindow.
Qed.

Lemma first_minute_allows_100_witness :
  allowed_from "10.0.0.1"
    [ {| from := "10.0.0.1"; at_time := 0; at_later := 0 |};
      {| from := "10.0.0.2"; at_time := 1; at_later := 1 |};
      {| from := "10.0.0.1"; at_time := 2; at_later := 2 |} ]
    (fst (serve_all empty_limiter
            [ {| from := "10.0.0.1"; at_time := 0; at_later := 0 |};
              {| from := "10.0.0.2"; at_time := 1; at_later := 1 |};
              {| from := "10.0.0.1"; at_time := 2; at_later := 2 |} ]))
  = Nat.min 2 100.
Proof.
  apply (first_minute_allows_100 empty_limiter "10.0.0.1").
  - reflexivity.
  - intros t0 Ht0. injection Ht0 as <-.
    repeat constructor; intros _; vm_compute; discriminate.
Defined.
End LimiterFacts.

(** ** Configuration validation *)

Section ConfigFacts.
Import ConfigPkg.
Local Open Scope Z_scope.

(** X24 *)
(** [Validate] accepts a configuration exactly when both ports are
    between 1 and 65535, the rate limit, the burst and the maximum text
    length are positive, the default alignment is left, center or right,
    the default timeout is positive and not above the maximum timeout,
    and the default speed is between 1 and 10; the defaults of the
    struct tags pass.  The ports are checked first: a bad public port is
    the error reported whatever else is wrong. *)
Theorem Validate_accepts (c : Config) :
  (Validate c = None <->
     1 <= PublicPort (Server c) <= 65535
     /\ 1 <= AdminPort (Server c) <= 65535
     /\ 1 <= RequestsPerMinute (RateLimit c)
     /\ 1 <= Burst (RateLimit c)
     /\ 1 <= MaxLength (Text c)
     /\ DefaultAlign (Text c) ∈ validAlignments
     /\ 1 <= DefaultTimeout (Streaming c) <= MaxTimeout (Streaming c)
     /\ 1 <= DefaultSpeed (Streaming c) <= 10)
  /\ (~ 1 <= PublicPort (Server c) <= 65535 ->
        Validate c = Some (InvalidPublicPort (PublicPort (Server c))))
  /\ Validate defaults = None.
Proof.
  split; [| split; [| reflexivity]].
  - assert (Hif : forall (b : bool) (e : error) (rest : option error),
              (if b then Some e else rest) = None <-> b = false /\ rest = None).
    { intros [|] e rest; split; [discriminate | intros [? _]; discriminate
                                | auto | tauto]. }
    unfold Validate. rewrite !Hif.
    rewrite !orb_false_iff, negb_false_iff, bool_decide_eq_true,
      !Z.ltb_ge, !Z.gtb_ltb, !Z.ltb_ge.
    intuition lia.
  - intros Hbad. unfold Validate.
    destruct (Z.ltb_spec (PublicPort (Server c)) 1); [reflexivity |].
    destruct (Z.gtb_spec (PublicPort (Server c)) 65535); [reflexivity | lia].
Qed.

Lemma Validate_accepts_witness :
  Validate {| Version := "dev";
              Server := {| PublicPort := 0; AdminPort := 9090; Host := "" |};
              RateLimit := RateLimit defaults; Fonts := Fonts defaults;
              Streaming := Streaming defaults; Text := Text defaults |}
  = Some (InvalidPublicPort 0).
Proof.
  refine (proj1 (proj2 (Validate_accepts
            {| Version := "dev";
               Server := {| PublicPort := 0; AdminPort := 9090; Host := "" |};
               RateLimit := RateLimit defaults; Fonts := Fonts defaults;
               Streaming := Streaming defaults; Text := Text defaults |})) _).
  vm_compute. intros [H _]. apply H. reflexivity.
Defined.
End ConfigFacts.
